(** * simplefs: a disk-backed cache store over a TTL index

    A shallow embedding of the [simplefs] storage provider (package
    [simplefs], file [simplefs.go]) and the properties of its quota
    reclamation, its byte accounting hooks and its multi-level write.

    Conventions of the embedding.
    - A Go [string] is a [string]; a Go [[]byte] is a [list byte].  The
      conversions [string(b)] and [[]byte(s)] copy the same byte sequence and
      are [string_of_bytes] and [bytes_of_string].
    - [int64] values are integers in [Z]; every [int64] addition and
      subtraction of the source is followed by [wrap64].
    - A point in time is the number of nanoseconds since the Unix epoch and a
      [time.Duration] is a number of nanoseconds.
    - The provider, the disk and the logger output make up a [World]; every
      operation is a function from worlds to worlds.  Worlds are those of a
      provider on which [Init] has attached its two hooks; the scan of the
      directory by [Init] and the construction by [Factory] are not part of
      the embedding.
    - An [error] is its message.  A Go function returning [(T, error)] returns
      a [result T]; a function returning only [error] returns an
      [option error] where [None] is [nil]. *)

From Stdlib Require Import ZArith String Ascii List Lia Bool.
From stdpp Require Import gmap strings list fin_maps.

Local Open Scope Z_scope.

Abbreviation bytes := (list Byte.byte).

Definition string_of_bytes (b : bytes) : string := string_of_list_byte b.
Definition bytes_of_string (s : string) : bytes := list_byte_of_string s.

Definition error := string.

Inductive result (A : Type) : Type :=
| Ok (a : A)
| Err (e : error).
Arguments Ok {A} a.
Arguments Err {A} e.

(** ** Machine integers *)

Definition wrap64 (z : Z) : Z := (z + 2 ^ 63) mod 2 ^ 64 - 2 ^ 63.

Definition uint64_of_int (z : Z) : Z := z mod 2 ^ 64.

(** ** strings.Contains *)

Fixpoint Contains (s substr : string) : bool :=
  String.prefix substr s
  || match s with
     | EmptyString => false
     | String _ s' => Contains s' substr
     end.

(** ** The file system

    The disk is a finite map from paths to what stands there: a regular file
    with its contents, or a directory with the size [os.Stat] reports for it.
    A path is a name, two spellings of a place are two paths: an entry lies
    in a directory when its path extends the path of the directory by a
    slash.
    The reasons for which the operating system refuses to create or truncate
    a file (a directory at the path, a name that is too long, permissions, a
    full device) are summed up by the predicate [writable] of the
    dependencies below, which answers for the state the call finds. *)

Inductive node : Type :=
| File (data : bytes)
| Dir (reported : N).

(** [FileInfo.Size] *)
Definition node_size (n : node) : Z :=
  match n with
  | File data => Z.of_nat (length data)
  | Dir reported => Z.of_N reported
  end.

(** [os.Stat] succeeds on a file and on a directory. *)
Definition os_Stat (p : string) (d : gmap string node) : option Z :=
  node_size <$> d !! p.

(** [os.ReadFile] fails on a directory. *)
Definition os_ReadFile (p : string) (d : gmap string node) : option bytes :=
  match d !! p with
  | Some (File data) => Some data
  | _ => None
  end.

(** Whether no entry of the disk lies in the directory [p]. *)
Definition dir_empty (p : string) (d : gmap string node) : bool :=
  map_fold (fun k _ acc => acc && negb (String.prefix (p ++ "/")%string k))
    true d.

(** [os.Remove] removes a file or an empty directory. *)
Definition os_Remove (p : string) (d : gmap string node)
  : option (gmap string node) :=
  match d !! p with
  | Some (File _) => Some (delete p d)
  | Some (Dir _) => if dir_empty p d then Some (delete p d) else None
  | None => None
  end.

(** Total number of bytes [os.Stat] reports for the entries of the disk. *)
Definition disk_usage (d : gmap string node) : Z :=
  map_fold (fun _ n acc => node_size n + acc) 0 d.

(** ** Logger output

    One constructor per logging call of the modelled functions, carrying the
    arguments of the call.  The newest event is at the head of the log. *)

Inductive LogEvent : Type :=
| Warnf_GetMiss (key : string)
| Errorf_ReadFile (filePath : string)
| Debugf_TryLz4 (key : string)
| Errorf_Lz4Decode (key : string)
| Debugf_TryZstd (key : string)
| Errorf_ZstdReader
| Errorf_ZstdDecode (key : string)
| Debugf_NoCompression (key : string)
| Errorf_UnsupportedCompression (method : string)
| Errorf_ZstdWriter (key : string)
| Errorf_ZstdEncode (key : string)
| Errorf_Lz4Encode (key : string)
| Warnf_UnknownCompression (method : string)
| Errorf_WriteFile (key : string)
| Warnf_MappingMiss (mappingKey : string)
| Debugf_StoreMapping (key : string)
| Errorf_StatFailed (key : string)
| Debugf_SizeIncreased (delta total : Z)
| Debugf_SizeDecreased (delta total : Z)
| Errorf_RemoveFailed (key : string).

(** ** The provider *)

(** An entry of the TTL index. *)
Record Item : Type := mkItem {
  Key : string;
  Value : bytes;
  TTL : Z;
  expiresAt : Z
}.

(** [type Simplefs struct].  [cache] lists the entries of the index, the most
    recently used one first; the mutex [mu] has no counterpart, operations
    being atomic here. *)
Record Simplefs : Type := mkSimplefs {
  cache : list Item;
  stale : Z;
  size : Z;
  path : string;
  actualSize : Z;
  directorySize : Z;
  compression : string
}.

Record World : Type := mkWorld {
  provider : Simplefs;
  disk : gmap string node;
  logger : list LogEvent
}.

Definition set_cache (c : list Item) (w : World) : World :=
  let p := provider w in
  mkWorld (mkSimplefs c (stale p) (size p) (path p) (actualSize p)
             (directorySize p) (compression p))
          (disk w) (logger w).

Definition set_actualSize (a : Z) (w : World) : World :=
  let p := provider w in
  mkWorld (mkSimplefs (cache p) (stale p) (size p) (path p) a
             (directorySize p) (compression p))
          (disk w) (logger w).

Definition set_disk (d : gmap string node) (w : World) : World :=
  mkWorld (provider w) d (logger w).

Definition log (e : LogEvent) (w : World) : World :=
  mkWorld (provider w) (disk w) (e :: logger w).

(** [http.Header] *)
Definition Header := list (string * list string).

(** ** Dependencies

    The packages the provider calls into and whose code is outside the
    repository: [core] (mapping prefix and mapping merge), the two codecs,
    [path/filepath], [net/url] and the operating system. *)
Record Deps : Type := mkDeps {
  (** [core.MappingKeyPrefix] *)
  MappingKeyPrefix : string;
  (** [core.MappingUpdater(key, item, logger, now, freshTime, staleTime,
      variedHeaders, etag, realKey)] *)
  MappingUpdater :
    string -> bytes -> Z -> Z -> Z -> Header -> string -> string -> result bytes;
  (** [zstd.NewWriter(&compressed)] *)
  zstd_NewWriter : option error;
  (** [zw.Write(value)]: the content of the buffer after the call *)
  zstd_Write : bytes -> result bytes;
  (** [lz4.NewWriter(&compressed)] then [w.ReadFrom(bytes.NewReader(value))]:
      the content of the buffer after the call *)
  lz4_ReadFrom : bytes -> result bytes;
  (** [io.ReadAll(lz4.NewReader(bytes.NewReader(byteValue)))] *)
  lz4_ReadAll : bytes -> result bytes;
  (** [zstd.NewReader(bytes.NewReader(byteValue))] *)
  zstd_NewReader : bytes -> option error;
  (** [io.ReadAll(r)] on the zstd reader *)
  zstd_ReadAll : bytes -> result bytes;
  (** [filepath.Join] *)
  filepath_Join : string -> string -> string;
  (** [url.PathEscape] *)
  url_PathEscape : string -> string;
  (** whether the operating system lets [os.WriteFile] create or truncate the
      file at a path *)
  writable : string -> bool;
  (** the floating point product of [time.ParseDuration], see
      [parse_group] *)
  float_part : Z -> Z -> Z -> Z
}.

Definition os_WriteFile (E : Deps) (p : string) (data : bytes)
    (d : gmap string node) : option (gmap string node) :=
  if writable E p then Some (<[p := File data]> d) else None.

(** ** fmt and time

    [fmt.Sprintf] with the verb [%d], [Time.Nanosecond] and
    [time.ParseDuration], as far as the provider uses them. *)

Definition digit_char (d : Z) : ascii := ascii_of_N (Z.to_N (48 + d)).

Definition is_digit (c : ascii) : bool :=
  (48 <=? Z.of_N (N_of_ascii c)) && (Z.of_N (N_of_ascii c) <=? 57).

Definition digit_value (c : ascii) : Z := Z.of_N (N_of_ascii c) - 48.

(** [strconv.formatBits] in base 10: the digits are produced from the least
    significant one and written in front of what is already there.  Twenty
    digits are enough for a 64-bit value. *)
Fixpoint formatBits (fuel : nat) (u : Z) (acc : string) : string :=
  match fuel with
  | O => acc
  | S fuel' =>
      if u <? 10 then String (digit_char u) acc
      else formatBits fuel' (u / 10) (String (digit_char (u mod 10)) acc)
  end.

(** The verb [%d] applied to an [int]. *)
Definition fmt_d (z : Z) : string :=
  if z <? 0 then String "-" (formatBits 20 (- z) "") else formatBits 20 z "".

(** [t.Nanosecond()]: the nanosecond offset within the second. *)
Definition Nanosecond (t : Z) : Z := t mod 1000000000.

(** [time.leadingInt] *)
Fixpoint leadingInt_from (x : Z) (s : string) : option (Z * string) :=
  match s with
  | String c s' =>
      if is_digit c then
        if x >? 2 ^ 63 / 10 then None
        else
          let x' := x * 10 + digit_value c in
          if x' >? 2 ^ 63 then None else leadingInt_from x' s'
      else Some (x, s)
  | EmptyString => Some (x, s)
  end.

Definition leadingInt (s : string) : option (Z * string) := leadingInt_from 0 s.

(** [time.leadingFraction]: the digits read, the number of digits kept (the
    scale is ten to that power) and the rest of the string. *)
Fixpoint leadingFraction_from (x : Z) (k : Z) (overflow : bool) (s : string)
  : Z * Z * string :=
  match s with
  | String c s' =>
      if is_digit c then
        if overflow then leadingFraction_from x k overflow s'
        else if x >? (2 ^ 63 - 1) / 10 then leadingFraction_from x k true s'
        else
          let y := x * 10 + digit_value c in
          if y >? 2 ^ 63 then leadingFraction_from x k true s'
          else leadingFraction_from y (k + 1) overflow s'
      else (x, k, s)
  | EmptyString => (x, k, s)
  end.

Definition leadingFraction (s : string) : Z * Z * string :=
  leadingFraction_from 0 0 false s.

(** The unit of a group: the characters up to the next digit or period. *)
Fixpoint unit_span (s : string) : string * string :=
  match s with
  | String c s' =>
      if Ascii.eqb c "." || is_digit c then (EmptyString, s)
      else let (u, r) := unit_span s' in (String c u, r)
  | EmptyString => (EmptyString, EmptyString)
  end.

Definition micro_sign : string :=
  String (ascii_of_nat 194) (String (ascii_of_nat 181) "s").
Definition greek_mu : string :=
  String (ascii_of_nat 206) (String (ascii_of_nat 188) "s").

(** [time.unitMap] *)
Definition unitMap (u : string) : option Z :=
  if String.eqb u "ns" then Some 1
  else if String.eqb u "us" then Some 1000
  else if String.eqb u micro_sign then Some 1000
  else if String.eqb u greek_mu then Some 1000
  else if String.eqb u "ms" then Some 1000000
  else if String.eqb u "s" then Some 1000000000
  else if String.eqb u "m" then Some 60000000000
  else if String.eqb u "h" then Some 3600000000000
  else None.

Definition invalid_duration : error := "time: invalid duration".
Definition missing_unit : error := "time: missing unit in duration".
Definition unknown_unit : error := "time: unknown unit in duration".

Section ParseDuration.
(** [uint64(float64(f) * (float64(unit) / scale))] with [scale] ten to the
    power [k]: the only floating point computation of the parser. *)
Variable float_product : Z -> Z -> Z -> Z.

(** One turn of the loop of [time.ParseDuration]: a number, an optional
    fraction and a unit.  Returns the value of the group in nanoseconds and
    the rest of the string. *)
Definition parse_group (s : string) : result (Z * string) :=
  match s with
  | EmptyString => Err invalid_duration
  | String c0 _ =>
      if negb (Ascii.eqb c0 "." || is_digit c0) then Err invalid_duration
      else
        match leadingInt s with
        | None => Err invalid_duration
        | Some (v, s1) =>
            let pre := negb (Nat.eqb (String.length s) (String.length s1)) in
            let '(f, k, s2, post) :=
              match s1 with
              | String "." s1' =>
                  let '(f, k, s2) := leadingFraction s1' in
                  (f, k, s2,
                   negb (Nat.eqb (String.length s1') (String.length s2)))
              | _ => (0, 0, s1, false)
              end in
            if negb pre && negb post then Err invalid_duration
            else
              let (u, s3) := unit_span s2 in
              if String.eqb u EmptyString then Err missing_unit
              else
                match unitMap u with
                | None => Err unknown_unit
                | Some unit =>
                    if v >? 2 ^ 63 / unit then Err invalid_duration
                    else
                      let v1 := v * unit in
                      if f >? 0 then
                        let v2 := v1 + float_product f unit k in
                        if v2 >? 2 ^ 63 then Err invalid_duration
                        else Ok (v2, s3)
                      else Ok (v1, s3)
                end
        end
  end.

Fixpoint parse_groups (fuel : nat) (d : Z) (s : string) : result Z :=
  match s with
  | EmptyString => Ok d
  | _ =>
      match fuel with
      | O => Err invalid_duration
      | S fuel' =>
          match parse_group s with
          | Err e => Err e
          | Ok (v, s') =>
              let d' := d + v in
              if d' >? 2 ^ 63 then Err invalid_duration
              else parse_groups fuel' d' s'
          end
      end
  end.

(** [time.ParseDuration].  Every turn of the loop consumes a character at
    least, so the length of the string bounds the number of turns. *)
Definition time_ParseDuration (orig : string) : result Z :=
  let (neg, s) :=
    match orig with
    | String "-" s' => (true, s')
    | String "+" s' => (false, s')
    | _ => (false, orig)
    end in
  if String.eqb s "0" then Ok 0
  else if String.eqb s EmptyString then Err invalid_duration
  else
    match parse_groups (String.length s) 0 s with
    | Err e => Err e
    | Ok d =>
        if neg then Ok (wrap64 (- d))
        else if d >? 2 ^ 63 - 1 then Err invalid_duration
        else Ok d
    end.
End ParseDuration.


(** ** The TTL index and its two hooks *)

Inductive EvictionReason : Type :=
| EvictionReasonDeleted
| EvictionReasonCapacityReached
| EvictionReasonExpired.

Definition lookup_item (k : string) (c : list Item) : option Item :=
  List.find (fun it => String.eqb (Key it) k) c.

Definition remove_item (k : string) (c : list Item) : list Item :=
  List.filter (fun it => negb (String.eqb (Key it) k)) c.

(** Modelled from the spec: the index is the package [ttlcache], which is not
    part of the repository.  An entry whose TTL is zero or negative counts as
    already expired; another entry expires once its expiry time has passed. *)
Definition isExpired (now : Z) (it : Item) : bool :=
  (TTL it <=? 0) || (expiresAt it <? now).

Section Engine.
Context (E : Deps).

(** [onEvict] *)
Definition onEvict (p : string) (d : gmap string node)
  : option (gmap string node) :=
  os_Remove p d.

(** The function [Init] passes to [cache.OnInsertion]. *)
Definition OnInsertion (item : Item) (w : World) : World :=
  if Contains (Key item) (MappingKeyPrefix E) then w
  else
    match os_Stat (string_of_bytes (Value item)) (disk w) with
    | None => log (Errorf_StatFailed (Key item)) w
    | Some sz =>
        let total := wrap64 (actualSize (provider w) + sz) in
        log (Debugf_SizeIncreased sz total) (set_actualSize total w)
    end.

(** The function [Init] passes to [cache.OnEviction]. *)
Definition OnEviction (reason : EvictionReason) (item : Item) (w : World)
  : World :=
  if Contains (string_of_bytes (Value item)) (MappingKeyPrefix E) then w
  else
    match os_Stat (string_of_bytes (Value item)) (disk w) with
    | None => log (Errorf_StatFailed (Key item)) w
    | Some sz =>
        let total := wrap64 (actualSize (provider w) - sz) in
        let w1 := log (Debugf_SizeDecreased sz total) (set_actualSize total w) in
        match onEvict (string_of_bytes (Value item)) (disk w1) with
        | None => log (Errorf_RemoveFailed (Key item)) w1
        | Some d => set_disk d w1
        end
    end.

(** Modelled from the spec: removal of one entry of the index, for any
    cause; the eviction hook runs at the point of removal with the removed
    entry. *)
Definition evict (reason : EvictionReason) (item : Item) (w : World)
  : World :=
  OnEviction reason item
    (set_cache (remove_item (Key item) (cache (provider w))) w).

(** Modelled from the spec: [cache.Get], a miss when the key is absent or
    its entry has expired; a hit makes the entry the most recently used. *)
Definition cache_Get (now : Z) (k : string) (w : World)
  : option Item * World :=
  match lookup_item k (cache (provider w)) with
  | Some it =>
      if isExpired now it then (None, w)
      else (Some it, set_cache (it :: remove_item k (cache (provider w))) w)
  | None => (None, w)
  end.

(** Modelled from the spec: the capacity given to [ttlcache.WithCapacity]
    is [uint64(size)] and zero stands for no bound.  When a new key would
    exceed the capacity the least recently used entry is evicted. *)
Definition make_room (w : World) : World :=
  let capacity := uint64_of_int (size (provider w)) in
  if negb (capacity =? 0)
     && (capacity <=? Z.of_nat (length (cache (provider w)))) then
    match last (cache (provider w)) with
    | Some lru => evict EvictionReasonCapacityReached lru w
    | None => w
    end
  else w.

(** Modelled from the spec: [cache.Set] inserts or replaces the entry of
    the key and the insertion hook runs after every set. *)
Definition cache_Set (now : Z) (k : string) (v : bytes) (ttl : Z) (w : World)
  : World :=
  let item := mkItem k v ttl (now + ttl) in
  match lookup_item k (cache (provider w)) with
  | Some _ =>
      OnInsertion item
        (set_cache (item :: remove_item k (cache (provider w))) w)
  | None =>
      let w1 := make_room w in
      OnInsertion item (set_cache (item :: cache (provider w1)) w1)
  end.

(** Modelled from the spec: [cache.Delete] removes the entry of the key, if
    there is one, and the eviction hook runs synchronously. *)
Definition cache_Delete (k : string) (w : World) : World :=
  match lookup_item k (cache (provider w)) with
  | Some it => evict EvictionReasonDeleted it w
  | None => w
  end.

Fixpoint range_visit (visit : Item -> World -> World * bool)
    (l : list Item) (w : World) : World :=
  match l with
  | [] => w
  | it :: l' =>
      let (w', continue) := visit it w in
      if continue then range_visit visit l' w' else w'
  end.

(** Modelled from the spec: [cache.RangeBackwards] visits the entries from
    the least recently used one and stops when the visitor returns
    [false]. *)
Definition cache_RangeBackwards (visit : Item -> World -> World * bool)
    (w : World) : World :=
  range_visit visit (rev (cache (provider w))) w.

(** Modelled from the spec: the background sweep evicts every entry that
    has expired. *)
Definition cache_sweep (now : Z) (w : World) : World :=
  fold_left (fun w0 it => evict EvictionReasonExpired it w0)
    (List.filter (isExpired now) (cache (provider w))) w.

(** Modelled from the spec: [cache.DeleteAll] evicts every entry. *)
Definition cache_DeleteAll (w : World) : World :=
  fold_left (fun w0 it => evict EvictionReasonDeleted it w0)
    (cache (provider w)) w.
End Engine.

(** ** The provider's operations *)

Section Provider.
Context (E : Deps).

(** [Get] *)
Definition Get (now : Z) (key : string) (w : World) : option bytes * World :=
  match cache_Get now key w with
  | (None, w1) => (None, log (Warnf_GetMiss key) w1)
  | (Some result, w1) =>
      let filePath := string_of_bytes (Value result) in
      match os_ReadFile filePath (disk w1) with
      | None => (Some (Value result), log (Errorf_ReadFile filePath) w1)
      | Some byteValue =>
          let method := compression (provider w1) in
          if String.eqb method "lz4" then
            let w2 := log (Debugf_TryLz4 key) w1 in
            match lz4_ReadAll E byteValue with
            | Err _ => (None, log (Errorf_Lz4Decode key) w2)
            | Ok decompressedData => (Some decompressedData, w2)
            end
          else if String.eqb method "zstd" then
            let w2 := log (Debugf_TryZstd key) w1 in
            match zstd_NewReader E byteValue with
            | Some _ => (None, log Errorf_ZstdReader w2)
            | None =>
                match zstd_ReadAll E byteValue with
                | Err _ => (None, log (Errorf_ZstdDecode key) w2)
                | Ok decompressedData => (Some decompressedData, w2)
                end
            end
          else if String.eqb method "" then
            (Some byteValue, log (Debugf_NoCompression key) w1)
          else (None, log (Errorf_UnsupportedCompression method) w1)
      end
  end.

(** The visitor [recoverEnoughSpaceIfNeeded] gives to
    [cache.RangeBackwards]. *)
Definition delete_visited (item : Item) (w : World) : World * bool :=
  (cache_Delete E (string_of_bytes (Value item)) w, false).

(** [recoverEnoughSpaceIfNeeded].  The recursion of the source has no
    measure; [fuel] bounds the number of calls and [None] says that the
    bound was reached before the function returned. *)
Fixpoint recoverEnoughSpaceIfNeeded (fuel : nat) (sz : Z) (w : World)
  : option World :=
  if (directorySize (provider w) >? -1)
     && (wrap64 (actualSize (provider w) + sz) >? directorySize (provider w))
  then
    match fuel with
    | O => None
    | S fuel' =>
        recoverEnoughSpaceIfNeeded fuel' sz
          (cache_RangeBackwards delete_visited w)
    end
  else Some w.

(** The switch on [provider.compression] at the head of [SetMultiLevel]:
    the content of the buffer [compressed], or the error returned. *)
Definition encode (variedKey : string) (value : bytes) (w : World)
  : result bytes * World :=
  let method := compression (provider w) in
  if String.eqb method "zstd" then
    match zstd_NewWriter E with
    | Some err => (Err err, log (Errorf_ZstdWriter variedKey) w)
    | None =>
        match zstd_Write E value with
        | Err err => (Err err, log (Errorf_ZstdEncode variedKey) w)
        | Ok compressed => (Ok compressed, w)
        end
    end
  else if String.eqb method "lz4" || String.eqb method "" then
    match lz4_ReadFrom E value with
    | Err err => (Err err, log (Errorf_Lz4Encode variedKey) w)
    | Ok compressed => (Ok compressed, w)
    end
  else (Ok value, log (Warnf_UnknownCompression method) w).

(** The duration [negativeNow] of [SetMultiLevel], from the time [t] read
    by the second call of [time.Now]. *)
Definition negativeNow (t : Z) : result Z :=
  time_ParseDuration (float_part E)
    (String "-" (fmt_d (Nanosecond t * 2) ++ "s")).

(** The path of the blob of a key: [filepath.Join(provider.path,
    url.PathEscape(variedKey))]. *)
Definition joinedFP (variedKey : string) (w : World) : string :=
  filepath_Join E (path (provider w)) (url_PathEscape E variedKey).

(** [SetMultiLevel], reading of the mapping record: the value of the entry
    found under the mapping key, or of the empty item made up on a miss. *)
Definition load_mapping (now : Z) (mappingKey : string) (w : World)
  : bytes * World :=
  match cache_Get now mappingKey w with
  | (Some item, w') => (Value item, w')
  | (None, w') => ([], log (Warnf_MappingMiss mappingKey) w')
  end.

(** [SetMultiLevel], from the reading of the mapping record to the end:
    merge of the metadata of the variant and write-back of the record. *)
Definition update_mapping (now now2 : Z) (baseKey variedKey : string)
    (variedHeaders : Header) (etag : string) (duration : Z)
    (realKey : string) (w : World) : option error * World :=
  let mappingKey := (MappingKeyPrefix E ++ baseKey)%string in
  let (item, w1) := load_mapping now mappingKey w in
  match
    MappingUpdater E variedKey item now (now + duration)
      (now + wrap64 (duration + stale (provider w1)))
      variedHeaders etag realKey
  with
  | Err e => (Some e, w1)
  | Ok val =>
      let w2 := log (Debugf_StoreMapping variedKey) w1 in
      match negativeNow now2 with
      | Err err =>
          (* the message of the source is in Chinese *)
          (Some ("cannot generate the duration: " ++ err)%string, w2)
      | Ok ttl => (None, cache_Set E now2 mappingKey val ttl w2)
      end
  end.

(** [SetMultiLevel].  [now] and [now2] are the times read by the two calls
    of [time.Now]; the result is [None] when the quota reclamation did not
    return within [fuel] calls. *)
Definition SetMultiLevel (fuel : nat) (now now2 : Z)
    (baseKey variedKey : string) (value : bytes) (variedHeaders : Header)
    (etag : string) (duration : Z) (realKey : string) (w : World)
  : option (option error * World) :=
  match encode variedKey value w with
  | (Err err, w0) => Some (Some err, w0)
  | (Ok compressed, w0) =>
      match recoverEnoughSpaceIfNeeded fuel (Z.of_nat (length compressed)) w0 with
      | None => None
      | Some w1 =>
          match os_WriteFile E (joinedFP variedKey w1) compressed (disk w1) with
          | None => Some (None, log (Errorf_WriteFile variedKey) w1)
          | Some d =>
              Some
                (update_mapping now now2 baseKey variedKey variedHeaders etag
                   duration realKey
                   (cache_Set E now variedKey
                      (bytes_of_string (joinedFP variedKey w1)) duration
                      (set_disk d w1)))
          end
      end
  end.

(** [Set] *)
Definition Set_ (now : Z) (key : string) (value : bytes) (duration : Z)
    (w : World) : option error * World :=
  (None, cache_Set E now key value duration w).

(** [Delete] *)
Definition Delete (key : string) (w : World) : World :=
  cache_Delete E key w.

(** [Reset] *)
Definition Reset (w : World) : option error * World :=
  (None, cache_DeleteAll E w).
End Provider.

(** ** The rest of the provider *)

(** [Name] *)
Definition Name : string := "SIMPLEFS".

(** [Uuid]: [fmt.Sprintf("%s-%d", provider.path, provider.size)] *)
Definition Uuid (p : Simplefs) : string :=
  (path p ++ "-" ++ fmt_d (size p))%string.

Fixpoint drop_bytes (n : nat) (s : string) : string :=
  match n, s with
  | S n', String _ s' => drop_bytes n' s'
  | _, _ => s
  end.

(** [strings.HasPrefix] *)
Definition HasPrefix (s prefix : string) : bool := String.prefix prefix s.

(** [strings.CutPrefix] *)
Definition CutPrefix (s prefix : string) : string * bool :=
  if HasPrefix s prefix then (drop_bytes (String.length prefix) s, true)
  else (s, false).

(** Modelled from the spec: [cache.Range] visits the entries from the most
    recently used one and stops when the visitor returns [false]. *)
Definition cache_Range (visit : Item -> World -> World * bool) (w : World)
  : World :=
  range_visit visit (cache (provider w)) w.

(** [MapKeys].  The visitor fills the map [keys] and always asks to go on, so
    the range is a fold over the entries. *)
Definition MapKeys (prefix : string) (w : World) : gmap string string :=
  fold_left
    (fun (keys : gmap string string) (item : Item) =>
       if HasPrefix (Key item) prefix then
         <[fst (CutPrefix (Key item) prefix) := string_of_bytes (Value item)]> keys
       else keys)
    (cache (provider w)) ∅.

(** [ListKeys].  Modelled from the spec: [cache.Keys] gives the keys of the
    entries; their order is that of the index here. *)
Definition ListKeys (w : World) : list string := map Key (cache (provider w)).

Section DeleteMany.
(** [regexp.Compile]: the matcher [MatchString] of the compiled expression,
    or nothing when the expression does not compile. *)
Variable regexp_Compile : string -> option (string -> bool).
Context (E : Deps).

(** The visitor [DeleteMany] gives to [cache.Range]. *)
Definition delete_matching (rgKey : string -> bool) (item : Item) (w : World)
  : World * bool :=
  ((if rgKey (Key item) then Delete E (Key item) w else w), true).

(** [DeleteMany] *)
Definition DeleteMany (key : string) (w : World) : World :=
  match regexp_Compile key with
  | None => w
  | Some rgKey => cache_Range (delete_matching rgKey) w
  end.
End DeleteMany.

(** The switch on [provider.compression] of [Get], applied to the bytes read
    from the blob file: the value [Get] returns. *)
Definition decode (E : Deps) (method : string) (byteValue : bytes)
  : option bytes :=
  if String.eqb method "lz4" then
    match lz4_ReadAll E byteValue with
    | Err _ => None
    | Ok decompressedData => Some decompressedData
    end
  else if String.eqb method "zstd" then
    match zstd_NewReader E byteValue with
    | Some _ => None
    | None =>
        match zstd_ReadAll E byteValue with
        | Err _ => None
        | Ok decompressedData => Some decompressedData
        end
    end
  else if String.eqb method "" then Some byteValue
  else None.

(** ** Construction of the provider *)

(** A value of the configuration map, of type [interface{}].  Of a
    [float64] the construction observes whether it is positive and its
    conversion to an integer: a [float64] is given by these two. *)
Inductive any : Type :=
| AnyNil
| AnyInt (val : Z)
| AnyInt64 (val : Z)
| AnyFloat64 (positive : bool) (truncated : Z)
| AnyString (val : string)
| AnyOther.

(** [core.CacheProvider.Configuration]: nil, a map from strings, or a value
    of another type. *)
Inductive Configuration : Type :=
| ConfigurationNil
| ConfigurationMap (sfsconfig : gmap string any)
| ConfigurationOther.

(** [core.CacheProvider], the fields the construction reads. *)
Record CacheProvider : Type := mkCacheProvider {
  Path : string;
  provider_configuration : Configuration
}.

(** The errors of [strconv]. *)
Inductive NumError : Type := ErrSyntax | ErrRange.

(** The loop of the fast path of [strconv.Atoi]. *)
Fixpoint atoi_digits (n : Z) (s : string) : option Z :=
  match s with
  | EmptyString => Some n
  | String ch s' =>
      if is_digit ch then atoi_digits (n * 10 + digit_value ch) s' else None
  end.

(** The loop of [strconv.ParseUint] in base 10 on 64 bits. *)
Fixpoint ParseUint_from (n : Z) (s : string) : Z * option NumError :=
  match s with
  | EmptyString => (n, None)
  | String c s' =>
      if is_digit c then
        if n >=? (2 ^ 64 - 1) / 10 + 1 then (2 ^ 64 - 1, Some ErrRange)
        else
          let n1 := n * 10 + digit_value c in
          if n1 >? 2 ^ 64 - 1 then (2 ^ 64 - 1, Some ErrRange)
          else ParseUint_from n1 s'
      else (0, Some ErrSyntax)
  end.

Definition ParseUint (s : string) : Z * option NumError :=
  match s with
  | EmptyString => (0, Some ErrSyntax)
  | _ => ParseUint_from 0 s
  end.

(** [strconv.ParseInt(s, 10, 0)] *)
Definition ParseInt (s : string) : Z * option NumError :=
  match s with
  | EmptyString => (0, Some ErrSyntax)
  | String c s' =>
      let neg := Ascii.eqb c "-" in
      let digits := if Ascii.eqb c "+" || neg then s' else s in
      match ParseUint digits with
      | (_, Some ErrSyntax) => (0, Some ErrSyntax)
      | (un, _) =>
          if negb neg && (un >=? 2 ^ 63) then (2 ^ 63 - 1, Some ErrRange)
          else if neg && (un >? 2 ^ 63) then (- 2 ^ 63, Some ErrRange)
          else (if neg then wrap64 (- wrap64 un) else wrap64 un, None)
      end
  end.

(** [strconv.Atoi], with [int] on 64 bits. *)
Definition Atoi (s : string) : Z * option NumError :=
  let sLen := String.length s in
  if (0 <? sLen)%nat && (sLen <? 19)%nat then
    match s with
    | EmptyString => (0, Some ErrSyntax)
    | String c s' =>
        let signed := Ascii.eqb c "-" || Ascii.eqb c "+" in
        let digits := if signed then s' else s in
        if signed && (String.length digits <? 1)%nat then (0, Some ErrSyntax)
        else
          match atoi_digits 0 digits with
          | None => (0, Some ErrSyntax)
          | Some n => (if Ascii.eqb c "-" then - n else n, None)
          end
    end
  else ParseInt s.

Definition is_upper (c : ascii) : bool :=
  (65 <=? Z.of_N (N_of_ascii c)) && (Z.of_N (N_of_ascii c) <=? 90).

Definition lower_byte (c : ascii) : ascii :=
  if is_upper c then ascii_of_N (N_of_ascii c + 32) else c.

Fixpoint map_bytes (f : ascii -> ascii) (s : string) : string :=
  match s with
  | EmptyString => EmptyString
  | String c s' => String (f c) (map_bytes f s')
  end.

Fixpoint isASCII (s : string) : bool :=
  match s with
  | EmptyString => true
  | String c s' => (Z.of_N (N_of_ascii c) <? 128) && isASCII s'
  end.

Fixpoint has_upper (s : string) : bool :=
  match s with
  | EmptyString => false
  | String c s' => is_upper c || has_upper s'
  end.

(** The logging calls of the construction. *)
Inductive FactoryEvent : Type :=
| Info_NoPath
| Errorf_Getwd
| Errorf_MkdirAll
| Infof_DirectoryReady (storagePath : string).

Section Factory.
(** [os.Getwd] *)
Variable os_Getwd : result string.
(** [os.MkdirAll(storagePath, 0o777)] *)
Variable os_MkdirAll : string -> option error.
(** [humanize.ParseBytes] *)
Variable humanize_ParseBytes : string -> Z * option error.
(** [strings.Map(unicode.ToLower, s)], the path [strings.ToLower] takes on a
    string that is not ASCII only *)
Variable unicode_ToLower : string -> string.

(** [strings.ToLower] *)
Definition strings_ToLower (s : string) : string :=
  if isASCII s then map_bytes lower_byte s else unicode_ToLower s.

(** [v, found := sfsconfig[k]; found && v != nil] *)
Definition configured (sfsconfig : gmap string any) (k : string) : option any :=
  match sfsconfig !! k with
  | Some AnyNil => None
  | found => found
  end.

Definition configured_size (sfsconfig : gmap string any) (size0 : Z) : Z :=
  match configured sfsconfig "size" with
  | Some (AnyInt val) => if val >? 0 then val else size0
  | Some (AnyFloat64 positive truncated) => if positive then truncated else size0
  | Some (AnyString val) => fst (Atoi val)
  | _ => size0
  end.

Definition configured_path (sfsconfig : gmap string any) (storagePath : string)
  : string :=
  match configured sfsconfig "path" with
  | Some (AnyString val) => val
  | _ => storagePath
  end.

Definition configured_directory_size (sfsconfig : gmap string any)
    (directorySize0 : Z) : Z :=
  match configured sfsconfig "directory_size" with
  | Some (AnyInt64 val) => if val >? 0 then val else directorySize0
  | Some (AnyFloat64 positive truncated) =>
      if positive then truncated else directorySize0
  | Some (AnyString val) =>
      if negb (String.eqb val "") then wrap64 (fst (humanize_ParseBytes val))
      else directorySize0
  | _ => directorySize0
  end.

Definition configured_compression (sfsconfig : gmap string any)
    (compression0 : string) : string :=
  match configured sfsconfig "compression" with
  | Some (AnyString val) => strings_ToLower val
  | _ => compression0
  end.

(** The part of [Factory] that reads the configuration: the entry limit, the
    storage path, the directory budget and the compression method. *)
Definition settings (simplefsCfg : CacheProvider) : Z * string * Z * string :=
  match provider_configuration simplefsCfg with
  | ConfigurationMap sfsconfig =>
      (configured_size sfsconfig 0,
       configured_path sfsconfig (Path simplefsCfg),
       configured_directory_size sfsconfig (-1),
       configured_compression sfsconfig "")
  | _ => (0, Path simplefsCfg, -1, EmptyString)
  end.

(** [Factory].  The index made by [ttlcache.New] is empty and is never nil;
    the result is the provider, or the error, and the logging calls made,
    the newest first. *)
Definition Factory (simplefsCfg : CacheProvider) (stale0 : Z)
  : result Simplefs * list FactoryEvent :=
  let '(size1, storagePath1, directorySize1, compression1) :=
    settings simplefsCfg in
  let resolved :=
    if String.eqb storagePath1 "" then
      match os_Getwd with
      | Ok wd => (Ok wd, [Info_NoPath])
      | Err err => (Err err, [Errorf_Getwd; Info_NoPath])
      end
    else (Ok storagePath1, []) in
  match resolved with
  | (Err err, events) => (Err err, events)
  | (Ok storagePath, events) =>
      match os_MkdirAll storagePath with
      | Some err => (Err err, Errorf_MkdirAll :: events)
      | None =>
          (Ok (mkSimplefs [] stale0 size1 storagePath 0 directorySize1
                 compression1),
           Infof_DirectoryReady storagePath :: events)
      end
  end.
End Factory.

(** Stand-ins of the operating system and of the libraries for the examples
    of the construction: the working directory is ["/srv"], every directory
    can be created, no byte size parses and the strings are ASCII. *)
Definition demo_Getwd : result string := Ok "/srv"%string.
Definition demo_MkdirAll (storagePath : string) : option error := None.
Definition demo_ParseBytes (s : string) : Z * option error :=
  (0, Some "humanize: unable to parse"%string).
Definition demo_Factory : CacheProvider -> Z -> result Simplefs * list FactoryEvent :=
  Factory demo_Getwd demo_MkdirAll demo_ParseBytes (fun s => s).

(** The strings made of decimal digits only. *)
Fixpoint all_digits (s : string) : bool :=
  match s with
  | EmptyString => true
  | String c s' => is_digit c && all_digits s'
  end.

(** The keys of the index are pairwise distinct. *)
Definition keys_unique (w : World) : Prop :=
  NoDup (map Key (cache (provider w))).

(** A matcher for the examples: the pattern is a literal prefix, and the
    pattern ["["] does not compile. *)
Definition compile_prefix (pattern : string) : option (string -> bool) :=
  if String.eqb pattern "[" then None
  else Some (fun key => String.prefix pattern key).

(** ** Instances of the dependencies for the examples *)

Definition upperhex (n : N) : ascii :=
  if (n <? 10)%N then ascii_of_N (48 + n) else ascii_of_N (55 + n).

(** [url.shouldEscape] in the mode [encodePathSegment] *)
Definition shouldEscape (c : ascii) : bool :=
  let n := N_of_ascii c in
  if ((97 <=? n) && (n <=? 122) || (65 <=? n) && (n <=? 90)
      || (48 <=? n) && (n <=? 57))%N then false
  else if (Ascii.eqb c "-" || Ascii.eqb c "_" || Ascii.eqb c "."
           || Ascii.eqb c "~")%bool then false
  else if (Ascii.eqb c "$" || Ascii.eqb c "&" || Ascii.eqb c "+"
           || Ascii.eqb c ":" || Ascii.eqb c "=" || Ascii.eqb c "@")%bool
  then false
  else true.

(** [url.PathEscape] *)
Fixpoint PathEscape (s : string) : string :=
  match s with
  | EmptyString => EmptyString
  | String c s' =>
      if shouldEscape c then
        String "%" (String (upperhex (N_of_ascii c / 16))
                      (String (upperhex (N_of_ascii c mod 16)) (PathEscape s')))
      else String c (PathEscape s')
  end.

(** A codec stand-in: the frame is the payload behind one tag byte. *)
Definition frame (tag : Byte.byte) (v : bytes) : result bytes := Ok (tag :: v).

Definition unframe (tag : Byte.byte) (b : bytes) : result bytes :=
  match b with
  | t :: v => if Byte.eqb t tag then Ok v else Err "bad frame"%string
  | [] => Err "short frame"%string
  end.

(** The merge of the examples appends the name of the variant to the record. *)
Definition append_variant (key : string) (item : bytes) (now fresh staleAt : Z)
    (h : Header) (etag realKey : string) : result bytes :=
  Ok (item ++ bytes_of_string key ++ bytes_of_string ";").

Definition failing_merge (key : string) (item : bytes) (now fresh staleAt : Z)
    (h : Header) (etag realKey : string) : result bytes :=
  Err "mapping: cannot decode the record"%string.

(** A file name joins its directory behind a slash, and is left as it is
    under the directory ["."]; the root ["/cache"] of the examples cannot be
    written as a file. *)
Definition join_flat (dir name : string) : string :=
  if String.eqb dir "." then name else (dir ++ "/" ++ name)%string.

Definition demo_with
    (merge : string -> bytes -> Z -> Z -> Z -> Header -> string -> string
             -> result bytes) : Deps :=
  mkDeps "IDX_" merge None (frame Byte.x28) (frame Byte.x04)
    (unframe Byte.x04) (fun _ => None) (unframe Byte.x28)
    join_flat PathEscape (fun p => negb (String.eqb p "/cache/"))
    (fun _ _ _ => 0).

Definition demo : Deps := demo_with append_variant.
Definition demo_failing_merge : Deps := demo_with failing_merge.

Definition fresh_world (budget : Z) (method : string) : World :=
  mkWorld (mkSimplefs [] 0 0 "/cache" 0 budget method) ∅ [].

Definition payload (n : nat) : bytes := repeat Byte.x61 n.

(** ** Worlds reached by evictions

    The part of a world that no operation changes, and the relation between
    a world and one reached from it by evictions only: the configuration is
    the same and no entry of the disk or of the index is new. *)

Definition config (w : World) : Z * Z * string * Z * string :=
  let p := provider w in
  (stale p, size p, path p, directorySize p, compression p).

Record shrinks (w w' : World) : Prop := mkShrinks {
  sh_config : config w' = config w;
  sh_disk : forall p data, disk w' !! p = Some data -> disk w !! p = Some data;
  sh_cache : forall k,
      lookup_item k (cache (provider w')) = None
      \/ lookup_item k (cache (provider w'))
         = lookup_item k (cache (provider w))
}.

(** The size of the directory a value names, zero when it names none. *)
Definition dir_bytes (v : bytes) (d : gmap string node) : Z :=
  match d !! string_of_bytes v with
  | Some (Dir reported) => Z.of_N reported
  | _ => 0
  end.

(** The sizes of the directories the entries of the index name.  A directory
    that is not empty outlives the eviction of an entry that names it, so it
    counts once for every such entry. *)
Definition index_dir_bytes (c : list Item) (d : gmap string node) : Z :=
  fold_right (fun it acc => dir_bytes (Value it) d + acc) 0 c.

(** The bytes the eviction hook can take off the counter: what [os.Stat]
    reports for the entries of the disk, and for the directories the index
    names. *)
Definition stat_bytes (w : World) : Z :=
  disk_usage (disk w) + index_dir_bytes (cache (provider w)) (disk w).

(** From [w] to [w'] the counter moved down, by no more than [stat_bytes]
    did. *)
Definition spends (w w' : World) : Prop :=
  forall lo,
    - 2 ^ 63 <= lo ->
    lo <= actualSize (provider w) - stat_bytes w ->
    actualSize (provider w) < 2 ^ 63 ->
    lo <= actualSize (provider w') - stat_bytes w'
    /\ actualSize (provider w') <= actualSize (provider w).

(** The methods the codec step knows. *)
Definition supported (method : string) : bool :=
  String.eqb method "zstd" || String.eqb method "lz4" || String.eqb method "".

(** The counter, the bytes the hooks can count and the incoming size are far
    enough from the bounds of [int64] for the accounting of one call not to
    wrap. *)
Definition in_range (w : World) (sz : Z) : Prop :=
  - 2 ^ 62 <= actualSize (provider w) < 2 ^ 62
  /\ stat_bytes w + sz <= 2 ^ 62
  /\ directorySize (provider w) < 2 ^ 63.

(** ** Worlds of the examples *)

(** The blob of the key [k1] is the file [/cache/k1], 8 bytes long, in a
    budget of 10 bytes. *)
Definition world_with_k1 : World :=
  mkWorld
    (mkSimplefs [mkItem "k1" (bytes_of_string "/cache/k1") 60000 61000]
       0 0 "/cache" 8 10 "lz4")
    {[ "/cache/k1"%string := File (Byte.x04 :: payload 7) ]} [].



(** An entry whose key holds the mapping prefix and whose value is the path
    of a file of 5 bytes. *)
Definition mapping_keyed_entry : Item :=
  mkItem "IDX_res" (bytes_of_string "/cache/f") 60000 61000.

Definition world_with_mapping_keyed_entry : World :=
  mkWorld (mkSimplefs [mapping_keyed_entry] 0 0 "/cache" 5 100 "lz4")
    {[ "/cache/f"%string := File (payload 5) ]} [].

(** A provider without compression and a file holding [hello]. *)
Definition world_with_file : World :=
  mkWorld (mkSimplefs [] 0 0 "/cache" 5 100 "")
    {[ "/cache/f"%string := File (bytes_of_string "hello") ]} [].

(** A provider rooted at the working directory, where the path of a blob is
    the key itself: the index holds the mapping record of [res] and the
    variant [k1], whose blob of 8 bytes fills most of a budget of 10. *)
Definition world_in_cwd : World :=
  mkWorld
    (mkSimplefs
       [mkItem "IDX_res" (bytes_of_string "k1;") (-4000000000) (-3999998000);
        mkItem "k1" (bytes_of_string "k1") 60000 61000]
       0 0 "." 8 10 "lz4")
    {[ "k1"%string := File (Byte.x04 :: payload 7) ]} [].


(** * Properties *)

(** ** Conversions, integers and strings *)

Lemma string_of_bytes_of_string (s : string) :
  string_of_bytes (bytes_of_string s) = s.
Proof. apply string_of_list_byte_of_string. Qed.

Lemma wrap64_small (z : Z) : - 2 ^ 63 <= z < 2 ^ 63 -> wrap64 z = z.
Proof.
  intros Hz. unfold wrap64.
  rewrite Z.mod_small by lia. lia.
Qed.

Lemma prefix_app (p s : string) : String.prefix p (p ++ s) = true.
Proof.
  induction p as [|c p IH]; simpl.
  - now destruct s.
  - destruct (ascii_dec c c) as [_|Hne]; [exact IH | now destruct Hne].
Qed.

Lemma Contains_prefix (s p : string) :
  String.prefix p s = true -> Contains s p = true.
Proof.
  intros Hp. destruct s; unfold Contains; fold Contains; rewrite Hp; reflexivity.
Qed.

Lemma Contains_app (p s : string) : Contains (p ++ s) p = true.
Proof. apply Contains_prefix, prefix_app. Qed.

(** ** Disk usage *)

Lemma node_size_nonneg (n : node) : 0 <= node_size n.
Proof. destruct n; simpl; lia. Qed.

Lemma disk_usage_delete (d : gmap string node) (p : string) (n : node) :
  d !! p = Some n ->
  disk_usage d = node_size n + disk_usage (delete p d).
Proof.
  intros Hp. unfold disk_usage.
  apply (map_fold_delete_L (fun _ x acc => node_size x + acc)); [|exact Hp].
  intros; lia.
Qed.

Lemma disk_usage_nonneg (d : gmap string node) : 0 <= disk_usage d.
Proof.
  unfold disk_usage.
  apply (map_fold_weak_ind (fun acc _ => 0 <= acc)); [lia|].
  intros k n m r _ IH. pose proof (node_size_nonneg n). lia.
Qed.

Lemma disk_usage_insert_le (d : gmap string node) (p : string) (n : node) :
  disk_usage (<[p := n]> d) <= disk_usage d + node_size n.
Proof.
  rewrite (disk_usage_delete (<[p := n]> d) p n) by apply lookup_insert_eq.
  rewrite delete_insert_eq.
  destruct (d !! p) as [old|] eqn:Hp.
  - rewrite (disk_usage_delete d p old Hp).
    pose proof (node_size_nonneg old). lia.
  - rewrite delete_id by exact Hp. lia.
Qed.

(** ** The directories the index names *)

Lemma dir_bytes_nonneg (v : bytes) (d : gmap string node) : 0 <= dir_bytes v d.
Proof.
  unfold dir_bytes. destruct (d !! string_of_bytes v) as [[data|r]|]; lia.
Qed.

Lemma index_dir_bytes_nonneg (c : list Item) (d : gmap string node) :
  0 <= index_dir_bytes c d.
Proof.
  induction c as [|a c IH]; simpl; [lia|].
  pose proof (dir_bytes_nonneg (Value a) d). lia.
Qed.

Lemma index_dir_bytes_remove_item (k : string) (c : list Item)
    (d : gmap string node) :
  index_dir_bytes (remove_item k c) d <= index_dir_bytes c d.
Proof.
  induction c as [|a c IH]; simpl; [lia|].
  pose proof (dir_bytes_nonneg (Value a) d).
  destruct (negb (String.eqb (Key a) k)); simpl; lia.
Qed.

(** The entry that leaves the index takes its directory along. *)
Lemma index_dir_bytes_evicted (it : Item) (c : list Item)
    (d : gmap string node) :
  In it c ->
  dir_bytes (Value it) d + index_dir_bytes (remove_item (Key it) c) d
  <= index_dir_bytes c d.
Proof.
  induction c as [|a c IH]; intros Hin; [destruct Hin|].
  pose proof (dir_bytes_nonneg (Value a) d).
  pose proof (index_dir_bytes_remove_item (Key it) c d).
  destruct Hin as [->|Hin]; simpl.
  - rewrite String.eqb_refl. simpl. lia.
  - specialize (IH Hin).
    destruct (negb (String.eqb (Key a) (Key it))); simpl; lia.
Qed.

(** A disk with no new directory gives the index no more bytes. *)
Lemma index_dir_bytes_mono (c : list Item) (d d' : gmap string node) :
  (forall p r, d' !! p = Some (Dir r) -> d !! p = Some (Dir r)) ->
  index_dir_bytes c d' <= index_dir_bytes c d.
Proof.
  intros Hsub. induction c as [|a c IH]; simpl; [lia|].
  assert (dir_bytes (Value a) d' <= dir_bytes (Value a) d); [|lia].
  unfold dir_bytes.
  destruct (d' !! string_of_bytes (Value a)) as [[data|r]|] eqn:Hn.
  - destruct (d !! string_of_bytes (Value a)) as [[data'|r']|]; lia.
  - rewrite (Hsub _ _ Hn). lia.
  - destruct (d !! string_of_bytes (Value a)) as [[data'|r']|]; lia.
Qed.

Lemma index_dir_bytes_delete (c : list Item) (p : string)
    (d : gmap string node) :
  index_dir_bytes c (delete p d) <= index_dir_bytes c d.
Proof.
  apply index_dir_bytes_mono. intros q r Hq.
  apply lookup_delete_Some in Hq. tauto.
Qed.

Lemma index_dir_bytes_write (c : list Item) (p : string) (data : bytes)
    (d : gmap string node) :
  index_dir_bytes c (<[p := File data]> d) <= index_dir_bytes c d.
Proof.
  apply index_dir_bytes_mono. intros q r Hq.
  apply lookup_insert_Some in Hq as [[_ Hq]|[_ Hq]]; [discriminate | exact Hq].
Qed.

(** ** Printing and parsing a decimal number *)

Lemma digit_char_spec (d : Z) :
  0 <= d < 10 -> is_digit (digit_char d) = true /\ digit_value (digit_char d) = d.
Proof.
  intros Hd.
  assert (Hcases : d = 0 \/ d = 1 \/ d = 2 \/ d = 3 \/ d = 4 \/ d = 5 \/ d = 6
                   \/ d = 7 \/ d = 8 \/ d = 9) by lia.
  repeat (destruct Hcases as [-> | Hcases]; [split; reflexivity|]).
  subst d; split; reflexivity.
Qed.

Lemma leadingInt_from_digit (x d : Z) (s : string) :
  0 <= d < 10 -> 0 <= x <= 2 ^ 63 / 10 -> x * 10 + d <= 2 ^ 63 ->
  leadingInt_from x (String (digit_char d) s) = leadingInt_from (x * 10 + d) s.
Proof.
  intros Hd Hx Hsum. destruct (digit_char_spec d Hd) as [Hdig Hval].
  cbn [leadingInt_from]. rewrite Hdig, Hval.
  destruct (Z.gtb_spec x (2 ^ 63 / 10)); [lia|].
  destruct (Z.gtb_spec (x * 10 + d) (2 ^ 63)); [lia|]. reflexivity.
Qed.

Lemma formatBits_app (fuel : nat) (u : Z) (acc t : string) :
  (formatBits fuel u acc ++ t)%string = formatBits fuel u (acc ++ t).
Proof.
  revert u acc. induction fuel as [|fuel IH]; intros u acc; simpl; [reflexivity|].
  destruct (u <? 10); [reflexivity|]. now rewrite IH.
Qed.

Lemma leadingInt_formatBits (fuel : nat) :
  forall (n : Z) (acc : string),
    0 <= n <= 2 ^ 63 -> n < 10 ^ Z.of_nat fuel ->
    leadingInt_from 0 (formatBits fuel n acc) = leadingInt_from n acc.
Proof.
  induction fuel as [|fuel IH]; intros n acc Hn Hlt.
  - simpl in *. now replace n with 0 by lia.
  - cbn [formatBits]. destruct (Z.ltb_spec n 10) as [Hsmall|Hbig].
    + rewrite leadingInt_from_digit; [now rewrite Z.mul_0_l, Z.add_0_l | lia | |lia].
      change (2 ^ 63 / 10) with 922337203685477580. lia.
    + assert (Hq : n / 10 <= 2 ^ 63 / 10) by (apply Z.div_le_mono; lia).
      assert (Hq0 : 0 <= n / 10) by (apply Z.div_pos; lia).
      assert (Hm : 0 <= n mod 10 < 10) by (apply Z.mod_pos_bound; lia).
      assert (Hdm : n / 10 * 10 + n mod 10 = n)
        by (pose proof (Z.div_mod n 10); lia).
      rewrite IH.
      * rewrite leadingInt_from_digit; [now rewrite Hdm | exact Hm | lia | lia].
      * split; [lia|]. change (2 ^ 63 / 10) with 922337203685477580 in Hq. lia.
      * rewrite Nat2Z.inj_succ, Z.pow_succ_r in Hlt by lia.
        apply Z.div_lt_upper_bound; lia.
Qed.

Lemma formatBits_head (fuel : nat) :
  forall (n : Z) (acc : string),
    0 <= n ->
    exists c rest,
      formatBits (S fuel) n acc = String c rest
      /\ is_digit c = true
      /\ (String.length acc <= String.length rest)%nat.
Proof.
  induction fuel as [|fuel IH]; intros n acc Hn.
  - cbn [formatBits]. destruct (Z.ltb_spec n 10).
    + exists (digit_char n), acc. repeat split; [|lia].
      now apply digit_char_spec.
    + exists (digit_char (n mod 10)), acc. repeat split; [|lia].
      apply digit_char_spec, Z.mod_pos_bound; lia.
  - change (formatBits (S (S fuel)) n acc)
      with (if n <? 10 then String (digit_char n) acc
            else formatBits (S fuel) (n / 10) (String (digit_char (n mod 10)) acc)).
    destruct (Z.ltb_spec n 10).
    + exists (digit_char n), acc. repeat split; [|lia].
      now apply digit_char_spec.
    + destruct (IH (n / 10) (String (digit_char (n mod 10)) acc))
        as (c & rest & Heq & Hdig & Hlen); [apply Z.div_pos; lia|].
      exists c, rest. repeat split; try assumption. simpl in Hlen. lia.
Qed.

(** A number of at most ten digits followed by the unit [s] is one group of
    that many seconds. *)
Lemma parse_group_seconds (fp : Z -> Z -> Z -> Z) (n : Z) :
  0 <= n <= 2000000000 ->
  parse_group fp (formatBits 20 n "s") = Ok (n * 1000000000, EmptyString).
Proof.
  intros Hn.
  destruct (formatBits_head 19 n "s") as (c & rest & Heq & Hdig & Hlen); [lia|].
  assert (Hlead : leadingInt (formatBits 20 n "s") = Some (n, "s"%string)).
  { unfold leadingInt. rewrite leadingInt_formatBits; [reflexivity| |].
    - change (2 ^ 63) with 9223372036854775808. lia.
    - change (10 ^ Z.of_nat 20) with 100000000000000000000. lia. }
  unfold parse_group. rewrite Hlead. rewrite Heq.
  rewrite Hdig, orb_true_r. cbn [negb].
  simpl in Hlen. destruct rest as [|c' rest]; [simpl in Hlen; lia|].
  cbn -[Z.gtb Z.mul Z.div Z.pow is_digit].
  change (is_digit "s") with false. cbv iota beta.
  change (String.eqb "s" "") with false. cbv iota.
  change (unitMap "s") with (Some 1000000000). cbv iota beta.
  change (2 ^ 63 `div` 1000000000) with 9223372036.
  destruct (Z.gtb_spec n 9223372036); [lia|].
  reflexivity.
Qed.

Lemma parse_groups_single (fp : Z -> Z -> Z -> Z) (s : string) (v : Z) :
  s <> EmptyString ->
  parse_group fp s = Ok (v, EmptyString) ->
  0 <= v <= 2 ^ 63 ->
  parse_groups fp (String.length s) 0 s = Ok v.
Proof.
  intros Hne Hgroup Hv. destruct s as [|c s]; [congruence|].
  cbn [String.length parse_groups]. rewrite Hgroup.
  rewrite Z.add_0_l. destruct (Z.gtb_spec v (2 ^ 63)); [lia|].
  now destruct (String.length s).
Qed.

Lemma Nanosecond_range (t : Z) : 0 <= Nanosecond t < 1000000000.
Proof. unfold Nanosecond. apply Z.mod_pos_bound. lia. Qed.

(** The duration computed by [SetMultiLevel] for the mapping record: twice
    the nanosecond field of the clock, in seconds, negated. *)
Lemma negativeNow_value (E : Deps) (t : Z) :
  negativeNow E t = Ok (- (Nanosecond t * 2 * 1000000000)).
Proof.
  pose proof (Nanosecond_range t) as Hns.
  unfold negativeNow, fmt_d.
  destruct (Z.ltb_spec (Nanosecond t * 2) 0) as [Hneg|_]; [lia|].
  rewrite formatBits_app. change ("" ++ "s")%string with "s"%string.
  set (n := Nanosecond t * 2) in *.
  destruct (formatBits_head 19 n "s") as (c & rest & Heq & Hdig & Hlen); [lia|].
  pose proof (parse_group_seconds (float_part E) n ltac:(lia)) as Hgroup.
  unfold time_ParseDuration.
  set (s := formatBits 20 n "s") in *.
  assert (Hzero : String.eqb s "0" = false).
  { rewrite Heq. destruct rest; [simpl in Hlen; lia|].
    cbn. now destruct (Ascii.eqb c "0"). }
  assert (Hempty : String.eqb s "" = false) by now rewrite Heq.
  rewrite Hzero, Hempty.
  rewrite (parse_groups_single _ s (n * 1000000000)).
  - rewrite wrap64_small; [reflexivity|].
    change (2 ^ 63) with 9223372036854775808. lia.
  - now rewrite Heq.
  - exact Hgroup.
  - change (2 ^ 63) with 9223372036854775808. lia.
Qed.

Example ParseDuration_negative_seconds (fp : Z -> Z -> Z -> Z) :
  time_ParseDuration fp "-1999999998s" = Ok (-1999999998000000000).
Proof. reflexivity. Qed.

Example ParseDuration_several_groups (fp : Z -> Z -> Z -> Z) :
  time_ParseDuration fp "1h15m30s" = Ok 4530000000000.
Proof. reflexivity. Qed.

Example ParseDuration_minus_zero (fp : Z -> Z -> Z -> Z) :
  time_ParseDuration fp "-0s" = Ok 0.
Proof. reflexivity. Qed.

Example ParseDuration_missing_unit (fp : Z -> Z -> Z -> Z) :
  time_ParseDuration fp "12" = Err missing_unit.
Proof. reflexivity. Qed.

Example fmt_d_examples :
  fmt_d 1999999998 = "1999999998"%string /\ fmt_d 0 = "0"%string
  /\ fmt_d (-42) = "-42"%string.
Proof. repeat split. Qed.

Example PathEscape_example : PathEscape "a/b c?d:e" = "a%2Fb%20c%3Fd:e"%string.
Proof. reflexivity. Qed.

(** ** The index as a list *)

Lemma lookup_remove_item (k k0 : string) (c : list Item) :
  lookup_item k (remove_item k0 c)
  = if String.eqb k0 k then None else lookup_item k c.
Proof.
  induction c as [|it c IH]; simpl.
  - now destruct (String.eqb k0 k).
  - destruct (String.eqb (Key it) k0) eqn:Hk0; simpl.
    + apply String.eqb_eq in Hk0. rewrite IH.
      destruct (String.eqb k0 k) eqn:Hk; [reflexivity|].
      rewrite Hk0, Hk. reflexivity.
    + destruct (String.eqb (Key it) k) eqn:Hk.
      * apply String.eqb_eq in Hk. rewrite <- Hk, String.eqb_sym, Hk0.
        reflexivity.
      * exact IH.
Qed.

Lemma lookup_item_Key (k : string) (c : list Item) (it : Item) :
  lookup_item k c = Some it -> Key it = k.
Proof.
  unfold lookup_item. intros H. apply find_some in H as [_ H].
  now apply String.eqb_eq.
Qed.

Lemma lookup_item_head (k : string) (it : Item) (c : list Item) :
  lookup_item k (it :: c)
  = if String.eqb (Key it) k then Some it else lookup_item k c.
Proof. reflexivity. Qed.

Lemma remove_item_absent (k : string) (c : list Item) :
  lookup_item k c = None -> remove_item k c = c.
Proof.
  induction c as [|it c IH]; simpl; [reflexivity|].
  destruct (String.eqb (Key it) k); [discriminate|].
  intros H. simpl. now rewrite IH.
Qed.

(** Moving the entry of a key to the front keeps every lookup. *)
Lemma lookup_move_front (k k0 : string) (it : Item) (c : list Item) :
  lookup_item k0 c = Some it ->
  lookup_item k (it :: remove_item k0 c) = lookup_item k c.
Proof.
  intros Hit. pose proof (lookup_item_Key _ _ _ Hit) as HK.
  rewrite lookup_item_head, lookup_remove_item, HK.
  destruct (String.eqb k0 k) eqn:Hk; [|reflexivity].
  apply String.eqb_eq in Hk. now subst k.
Qed.

(** ** Evictions only shrink a world *)

Lemma shrinks_refl (w : World) : shrinks w w.
Proof. split; auto. Qed.

Lemma shrinks_trans (w1 w2 w3 : World) :
  shrinks w1 w2 -> shrinks w2 w3 -> shrinks w1 w3.
Proof.
  intros [C1 D1 K1] [C2 D2 K2]. split.
  - congruence.
  - auto.
  - intros k. destruct (K2 k) as [H|H]; [now left|].
    rewrite H. apply K1.
Qed.

Lemma shrinks_log (e : LogEvent) (w : World) : shrinks w (log e w).
Proof. split; auto. Qed.

Lemma shrinks_remove_item (k : string) (w : World) :
  shrinks w (set_cache (remove_item k (cache (provider w))) w).
Proof.
  split; auto.
  intros k'. simpl. rewrite lookup_remove_item.
  destruct (String.eqb k k'); auto.
Qed.

Lemma spends_refl (w : World) : spends w w.
Proof. intros lo Hlo Hacct Hhi. lia. Qed.

Lemma spends_trans (w1 w2 w3 : World) :
  spends w1 w2 -> spends w2 w3 -> spends w1 w3.
Proof.
  intros A1 A2 lo Hlo Hacct Hhi.
  destruct (A1 lo Hlo Hacct Hhi) as [Hacct2 Hle].
  destruct (A2 lo Hlo Hacct2 ltac:(lia)) as [Hacct3 Hle3].
  split; [exact Hacct3 | lia].
Qed.

Lemma spends_log (e : LogEvent) (w : World) : spends w (log e w).
Proof. intros lo Hlo Hacct Hhi. unfold stat_bytes in *. simpl. lia. Qed.

Section Frames.
Context (E : Deps).

Lemma OnEviction_shrinks (reason : EvictionReason) (it : Item) (w : World) :
  shrinks w (OnEviction E reason it w).
Proof.
  unfold OnEviction.
  destruct (Contains _ _); [apply shrinks_refl|].
  unfold os_Stat, onEvict, os_Remove. simpl.
  destruct (disk w !! string_of_bytes (Value it)) as [[data|r]|] eqn:Hnode;
    simpl; [| |apply shrinks_log].
  - split; auto. simpl. intros p n Hp.
    apply lookup_delete_Some in Hp. tauto.
  - destruct (dir_empty _ _); split; auto. simpl. intros p n Hp.
    apply lookup_delete_Some in Hp. tauto.
Qed.

Lemma evict_shrinks (reason : EvictionReason) (it : Item) (w : World) :
  shrinks w (evict E reason it w).
Proof.
  unfold evict. eapply shrinks_trans;
    [apply shrinks_remove_item | apply OnEviction_shrinks].
Qed.

(** The eviction of an entry of the index takes off the counter what
    [os.Stat] reports for its value: the size of a file, which the hook
    removes, or of a directory, which leaves the index with the entry. *)
Lemma evict_spends (reason : EvictionReason) (it : Item) (w : World) :
  In it (cache (provider w)) -> spends w (evict E reason it w).
Proof.
  intros Hin lo Hlo Hacct Hhi. unfold stat_bytes in Hacct.
  pose proof (index_dir_bytes_evicted it _ (disk w) Hin) as Hgone.
  pose proof (index_dir_bytes_remove_item (Key it) (cache (provider w)) (disk w))
    as Hrest.
  pose proof (index_dir_bytes_delete
                (remove_item (Key it) (cache (provider w)))
                (string_of_bytes (Value it)) (disk w)) as Hdel.
  pose proof (index_dir_bytes_nonneg
                (remove_item (Key it) (cache (provider w))) (disk w)) as Hpos.
  pose proof (index_dir_bytes_nonneg
                (remove_item (Key it) (cache (provider w)))
                (delete (string_of_bytes (Value it)) (disk w))) as Hpos'.
  pose proof (disk_usage_nonneg (disk w)) as Hu.
  pose proof (disk_usage_nonneg (delete (string_of_bytes (Value it)) (disk w)))
    as Hu'.
  unfold evict, OnEviction, stat_bytes.
  destruct (Contains _ _); [simpl; lia|].
  unfold os_Stat, onEvict, os_Remove, dir_bytes in *. simpl.
  destruct (disk w !! string_of_bytes (Value it)) as [[data|r]|] eqn:Hnode;
    simpl; [| |lia].
  - pose proof (disk_usage_delete _ _ _ Hnode) as Husage. simpl in Husage.
    rewrite wrap64_small by lia. lia.
  - pose proof (disk_usage_delete _ _ _ Hnode) as Husage. simpl in Husage.
    destruct (dir_empty _ _); simpl; rewrite wrap64_small by lia; lia.
Qed.

Lemma cache_Delete_shrinks (k : string) (w : World) :
  shrinks w (cache_Delete E k w).
Proof.
  unfold cache_Delete. destruct (lookup_item _ _);
    [apply evict_shrinks | apply shrinks_refl].
Qed.

Lemma cache_Delete_spends (k : string) (w : World) :
  spends w (cache_Delete E k w).
Proof.
  unfold cache_Delete.
  destruct (lookup_item k (cache (provider w))) as [it|] eqn:Hit;
    [|apply spends_refl].
  apply evict_spends. unfold lookup_item in Hit.
  now apply find_some in Hit.
Qed.

Lemma make_room_shrinks (w : World) : shrinks w (make_room E w).
Proof.
  unfold make_room. destruct (_ && _); [|apply shrinks_refl].
  destruct (last _); [apply evict_shrinks | apply shrinks_refl].
Qed.

Lemma make_room_spends (w : World) : spends w (make_room E w).
Proof.
  unfold make_room. destruct (_ && _); [|apply spends_refl].
  destruct (last (cache (provider w))) as [lru|] eqn:Hlast;
    [|apply spends_refl].
  apply evict_spends. apply last_Some in Hlast as [l' ->].
  apply in_or_app. right. now left.
Qed.

Lemma reclaim_step_shrinks (w : World) :
  shrinks w (cache_RangeBackwards (delete_visited E) w).
Proof.
  unfold cache_RangeBackwards.
  destruct (rev (cache (provider w))) as [|it l]; simpl;
    [apply shrinks_refl | apply cache_Delete_shrinks].
Qed.

Lemma reclaim_step_spends (w : World) :
  spends w (cache_RangeBackwards (delete_visited E) w).
Proof.
  unfold cache_RangeBackwards.
  destruct (rev (cache (provider w))) as [|it l]; simpl;
    [apply spends_refl | apply cache_Delete_spends].
Qed.

Lemma recoverEnoughSpaceIfNeeded_shrinks (fuel : nat) (sz : Z) :
  forall w w',
    recoverEnoughSpaceIfNeeded E fuel sz w = Some w' -> shrinks w w'.
Proof.
  induction fuel as [|fuel IH]; intros w w' Hrun; simpl in Hrun;
    destruct (_ && _); try discriminate.
  - injection Hrun as <-. apply shrinks_refl.
  - eapply shrinks_trans; [apply reclaim_step_shrinks | now apply IH].
  - injection Hrun as <-. apply shrinks_refl.
Qed.

Lemma recoverEnoughSpaceIfNeeded_spends (fuel : nat) (sz : Z) :
  forall w w',
    recoverEnoughSpaceIfNeeded E fuel sz w = Some w' -> spends w w'.
Proof.
  induction fuel as [|fuel IH]; intros w w' Hrun; simpl in Hrun;
    destruct (_ && _); try discriminate.
  - injection Hrun as <-. apply spends_refl.
  - eapply spends_trans; [apply reclaim_step_spends | now apply IH].
  - injection Hrun as <-. apply spends_refl.
Qed.

(** When the reclamation returns, the budget admits the incoming size. *)
Lemma recoverEnoughSpaceIfNeeded_post (fuel : nat) (sz : Z) :
  forall w w',
    recoverEnoughSpaceIfNeeded E fuel sz w = Some w' ->
    directorySize (provider w') > -1 ->
    wrap64 (actualSize (provider w') + sz) <= directorySize (provider w').
Proof.
  induction fuel as [|fuel IH]; intros w w' Hrun Hbudget; simpl in Hrun;
    destruct (_ && _) eqn:Hcond; try discriminate.
  - injection Hrun as <-.
    apply andb_false_iff in Hcond as [Hc|Hc]; lia.
  - now apply (IH _ _ Hrun).
  - injection Hrun as <-.
    apply andb_false_iff in Hcond as [Hc|Hc]; lia.
Qed.
End Frames.

Section SetAndGet.
Context (E : Deps).

Lemma OnInsertion_frame (it : Item) (w : World) :
  config (OnInsertion E it w) = config w
  /\ disk (OnInsertion E it w) = disk w
  /\ cache (provider (OnInsertion E it w)) = cache (provider w).
Proof.
  unfold OnInsertion. destruct (Contains _ _); [auto|].
  destruct (os_Stat _ _); auto.
Qed.

Lemma OnInsertion_inert (it : Item) (w : World) :
  Contains (Key it) (MappingKeyPrefix E) = true -> OnInsertion E it w = w.
Proof. unfold OnInsertion. now intros ->. Qed.

Lemma OnInsertion_no_file (it : Item) (w : World) :
  os_Stat (string_of_bytes (Value it)) (disk w) = None ->
  actualSize (provider (OnInsertion E it w)) = actualSize (provider w).
Proof.
  intros Hstat. unfold OnInsertion. rewrite Hstat.
  now destruct (Contains _ _).
Qed.

(** A set is the insertion hook run on the index with the new entry at the
    front, in a world reached by at most one eviction. *)
Lemma cache_Set_spec (now : Z) (k : string) (v : bytes) (ttl : Z) (w : World) :
  exists w1 c1,
    shrinks w w1
    /\ spends w w1
    /\ index_dir_bytes c1 (disk w1)
       <= index_dir_bytes (cache (provider w1)) (disk w1)
    /\ (forall k', k' <> k ->
          lookup_item k' c1 = None
          \/ lookup_item k' c1 = lookup_item k' (cache (provider w)))
    /\ cache_Set E now k v ttl w
       = OnInsertion E (mkItem k v ttl (now + ttl))
           (set_cache (mkItem k v ttl (now + ttl) :: c1) w1).
Proof.
  unfold cache_Set. destruct (lookup_item k (cache (provider w))) eqn:Hk.
  - exists w, (remove_item k (cache (provider w))).
    split; [apply shrinks_refl|]. split; [apply spends_refl|].
    split; [apply index_dir_bytes_remove_item|]. split; [|reflexivity].
    intros k' _. rewrite lookup_remove_item. destruct (String.eqb k k'); auto.
  - exists (make_room E w), (cache (provider (make_room E w))).
    pose proof (make_room_shrinks E w) as Hsh.
    split; [exact Hsh|]. split; [apply make_room_spends|].
    split; [lia|]. split; [|reflexivity].
    intros k' _. apply (sh_cache _ _ Hsh).
Qed.

Lemma cache_Set_frame (now : Z) (k : string) (v : bytes) (ttl : Z) (w : World) :
  let w' := cache_Set E now k v ttl w in
  config w' = config w
  /\ (forall p data, disk w' !! p = Some data -> disk w !! p = Some data)
  /\ lookup_item k (cache (provider w')) = Some (mkItem k v ttl (now + ttl))
  /\ head (cache (provider w')) = Some (mkItem k v ttl (now + ttl))
  /\ (forall k', k' <> k ->
        lookup_item k' (cache (provider w')) = None
        \/ lookup_item k' (cache (provider w'))
           = lookup_item k' (cache (provider w))).
Proof.
  destruct (cache_Set_spec now k v ttl w)
    as (w1 & c1 & Hsh & _ & _ & Hc1 & ->).
  destruct (OnInsertion_frame (mkItem k v ttl (now + ttl))
              (set_cache (mkItem k v ttl (now + ttl) :: c1) w1))
    as (Hcfg & Hdisk & Hcache).
  cbv zeta. rewrite Hcfg, Hdisk, Hcache. simpl.
  repeat split.
  - apply (sh_config _ _ Hsh).
  - apply (sh_disk _ _ Hsh).
  - now rewrite String.eqb_refl.
  - intros k' Hne. destruct (String.eqb k k') eqn:Hkk'.
    + apply String.eqb_eq in Hkk'. congruence.
    + now apply Hc1.
Qed.

(** The counter after a set whose entry the insertion hook leaves alone. *)
Lemma cache_Set_acct_inert (now : Z) (k : string) (v : bytes) (ttl : Z)
    (w : World) :
  Contains k (MappingKeyPrefix E) = true ->
  - 2 ^ 63 <= actualSize (provider w) - stat_bytes w ->
  actualSize (provider w) < 2 ^ 63 ->
  actualSize (provider (cache_Set E now k v ttl w)) <= actualSize (provider w).
Proof.
  intros Hinert Hacct Hhi.
  destruct (cache_Set_spec now k v ttl w) as (w1 & c1 & _ & Hsp & _ & _ & ->).
  rewrite OnInsertion_inert by exact Hinert. simpl.
  apply (Hsp (- 2 ^ 63)); [lia | assumption..].
Qed.

(** The counter after a set whose value names nothing, or a file of [sz]
    bytes. *)
Lemma cache_Set_acct (now : Z) (k : string) (v : bytes) (ttl : Z)
    (w : World) (lo sz bound : Z) :
  (forall n,
      disk w !! string_of_bytes v = Some n ->
      exists data, n = File data /\ Z.of_nat (length data) = sz) ->
  0 <= sz ->
  - 2 ^ 63 <= lo ->
  lo <= actualSize (provider w) - stat_bytes w ->
  actualSize (provider w) + sz <= bound ->
  bound < 2 ^ 63 ->
  let w' := cache_Set E now k v ttl w in
  lo <= actualSize (provider w') - stat_bytes w'
  /\ actualSize (provider w') <= bound.
Proof.
  intros Hfile Hsz Hlo Hacct Hsum Hbound.
  destruct (cache_Set_spec now k v ttl w)
    as (w1 & c1 & Hsh & Hsp & Hc1 & _ & ->).
  destruct (Hsp lo Hlo Hacct ltac:(lia)) as [Hacct1 Hle].
  unfold stat_bytes in Hacct1.
  pose proof (disk_usage_nonneg (disk w1)) as Hu.
  pose proof (index_dir_bytes_nonneg (cache (provider w1)) (disk w1)) as Hd.
  pose proof (index_dir_bytes_nonneg c1 (disk w1)) as Hd1.
  assert (Hnode : forall n,
             disk w1 !! string_of_bytes v = Some n ->
             exists data, n = File data /\ Z.of_nat (length data) = sz).
  { intros n Hn. apply Hfile. now apply (sh_disk _ _ Hsh). }
  assert (Hnew : dir_bytes v (disk w1) = 0).
  { unfold dir_bytes.
    destruct (disk w1 !! string_of_bytes v) as [[data|r]|] eqn:Hn;
      [reflexivity| |reflexivity].
    destruct (Hnode _ eq_refl) as (data & Heq & _). discriminate. }
  cbv zeta. unfold OnInsertion, stat_bytes. cbn [Key Value].
  destruct (Contains k (MappingKeyPrefix E)); [simpl; lia|].
  change (disk (set_cache _ w1)) with (disk w1).
  unfold os_Stat.
  destruct (disk w1 !! string_of_bytes v) as [n|] eqn:Hstat;
    [|simpl; lia].
  destruct (Hnode _ eq_refl) as (data & -> & Hlen).
  simpl. rewrite Hlen, Hnew. rewrite wrap64_small by lia. lia.
Qed.

Lemma cache_Get_frame (now : Z) (k : string) (w : World) :
  let w' := snd (cache_Get now k w) in
  config w' = config w /\ disk w' = disk w
  /\ actualSize (provider w') = actualSize (provider w)
  /\ logger w' = logger w
  /\ forall k', lookup_item k' (cache (provider w'))
                = lookup_item k' (cache (provider w)).
Proof.
  unfold cache_Get. destruct (lookup_item k (cache (provider w))) eqn:Hk;
    [|simpl; auto].
  destruct (isExpired now i); simpl; [auto|].
  repeat split. intros k'. now apply lookup_move_front.
Qed.

Lemma load_mapping_frame (now : Z) (k : string) (w : World) :
  let w' := snd (load_mapping now k w) in
  config w' = config w /\ disk w' = disk w
  /\ actualSize (provider w') = actualSize (provider w)
  /\ forall k', lookup_item k' (cache (provider w'))
                = lookup_item k' (cache (provider w)).
Proof.
  pose proof (cache_Get_frame now k w) as (Hc & Hd & Ha & _ & Hl).
  unfold load_mapping. destruct (cache_Get now k w) as [[it|] w']; simpl in *;
    auto.
Qed.

(** A hit moves an entry to the front: the index names no more directory
    than before. *)
Lemma cache_Get_stat_bytes (now : Z) (k : string) (w : World) :
  stat_bytes (snd (cache_Get now k w)) <= stat_bytes w.
Proof.
  unfold cache_Get, stat_bytes.
  destruct (lookup_item k (cache (provider w))) as [it|] eqn:Hk;
    [|simpl; lia].
  destruct (isExpired now it); simpl; [lia|].
  pose proof (lookup_item_Key _ _ _ Hk) as HK.
  unfold lookup_item in Hk. apply find_some in Hk as [Hin _].
  pose proof (index_dir_bytes_evicted it _ (disk w) Hin) as Hgone.
  rewrite HK in Hgone. lia.
Qed.

Lemma load_mapping_stat_bytes (now : Z) (k : string) (w : World) :
  stat_bytes (snd (load_mapping now k w)) <= stat_bytes w.
Proof.
  pose proof (cache_Get_stat_bytes now k w) as Hle.
  unfold load_mapping. destruct (cache_Get now k w) as [[it|] w']; simpl in *;
    [exact Hle|].
  unfold stat_bytes in *. simpl. exact Hle.
Qed.

Lemma encode_frame (variedKey : string) (value : bytes) (w : World) :
  shrinks w (snd (encode E variedKey value w)).
Proof.
  unfold encode.
  repeat match goal with
         | |- context [if ?b then _ else _] => destruct b
         | |- context [match ?x with _ => _ end] => destruct x
         end; simpl; auto using shrinks_refl, shrinks_log.
Qed.

Lemma encode_spends (variedKey : string) (value : bytes) (w : World) :
  spends w (snd (encode E variedKey value w)).
Proof.
  unfold encode.
  repeat match goal with
         | |- context [if ?b then _ else _] => destruct b
         | |- context [match ?x with _ => _ end] => destruct x
         end; simpl; auto using spends_refl, spends_log.
Qed.
End SetAndGet.

(** ** Quota reclamation *)

(** The visitor deletes the key spelled by the value of the entry it visits;
    when no entry has that key the pass changes nothing. *)
Lemma reclaim_step_miss (E : Deps) (w : World) :
  match rev (cache (provider w)) with
  | [] => True
  | it :: _ => lookup_item (string_of_bytes (Value it)) (cache (provider w)) = None
  end ->
  cache_RangeBackwards (delete_visited E) w = w.
Proof.
  unfold cache_RangeBackwards.
  destruct (rev (cache (provider w))) as [|it l]; [reflexivity|].
  intros Hmiss. simpl. unfold cache_Delete. now rewrite Hmiss.
Qed.

(** A pass that changes nothing while the budget is exceeded repeats for
    ever: no amount of fuel lets the reclamation return. *)
Lemma recoverEnoughSpaceIfNeeded_stuck (E : Deps) (sz : Z) (w : World) :
  directorySize (provider w) > -1 ->
  wrap64 (actualSize (provider w) + sz) > directorySize (provider w) ->
  cache_RangeBackwards (delete_visited E) w = w ->
  forall fuel, recoverEnoughSpaceIfNeeded E fuel sz w = None.
Proof.
  intros Hbudget Hover Hstep fuel.
  assert (Hcond : (directorySize (provider w) >? -1)
                  && (wrap64 (actualSize (provider w) + sz)
                      >? directorySize (provider w)) = true).
  { apply andb_true_iff. split; apply Z.gtb_lt; lia. }
  induction fuel as [|fuel IH]; simpl; rewrite Hcond; [reflexivity|].
  now rewrite Hstep.
Qed.

(** C2.  The claim is that the quota reclamation terminates in every state,
    stopping when the budget is met or the index is empty.  On an empty index
    with a budget of 10 bytes and an incoming payload of 11 bytes the
    function calls itself again in the same state: it returns for no amount
    of fuel. *)
Theorem recoverEnoughSpaceIfNeeded_never_returns :
  forall fuel : nat,
    recoverEnoughSpaceIfNeeded demo fuel 11 (fresh_world 10 "lz4") = None.
Proof.
  apply recoverEnoughSpaceIfNeeded_stuck.
  - simpl. lia.
  - vm_compute. reflexivity.
  - reflexivity.
Qed.

(** The same happens with entries to evict: the blob of the key [k1] is the
    file [/cache/k1], the visitor asks to delete the key [/cache/k1], which
    is no key of the index, and nothing is evicted though evicting [k1] would
    make room. *)
Lemma recoverEnoughSpaceIfNeeded_never_evicts_k1 :
  forall fuel : nat,
    recoverEnoughSpaceIfNeeded demo fuel 8 world_with_k1 = None.
Proof.
  apply recoverEnoughSpaceIfNeeded_stuck.
  - simpl. lia.
  - vm_compute. reflexivity.
  - apply reclaim_step_miss. reflexivity.
Qed.

Lemma SetMultiLevel_never_returns_on_oversized_payload :
  forall fuel : nat,
    SetMultiLevel demo fuel 1000 2000 "res" "k1" (payload 10) [] "etag" 60000
      "res" (fresh_world 10 "lz4") = None.
Proof.
  intros fuel. unfold SetMultiLevel.
  change (encode demo "k1" (payload 10) (fresh_world 10 "lz4"))
    with (Ok (Byte.x04 :: payload 10) : result bytes, fresh_world 10 "lz4").
  cbv iota beta.
  change (Z.of_nat (length (Byte.x04 :: payload 10))) with 11.
  rewrite recoverEnoughSpaceIfNeeded_stuck; [reflexivity | simpl; lia | | reflexivity].
  vm_compute. reflexivity.
Qed.

(** ** The two hooks *)

(** The eviction hook returns early when the stat of the value fails. *)
Lemma OnEviction_no_file
    (E : Deps) (reason : EvictionReason) (item : Item) (w : World) :
  os_Stat (string_of_bytes (Value item)) (disk w) = None ->
  actualSize (provider (OnEviction E reason item w)) = actualSize (provider w)
  /\ disk (OnEviction E reason item w) = disk w
  /\ cache (provider (OnEviction E reason item w)) = cache (provider w).
Proof.
  intros Hstat. unfold OnEviction. rewrite Hstat.
  now destruct (Contains _ _).
Qed.



(** The three causes of removal go through [evict]. *)
Lemma cache_Delete_is_evict (E : Deps) (k : string) (item : Item) (w : World) :
  lookup_item k (cache (provider w)) = Some item ->
  cache_Delete E k w = evict E EvictionReasonDeleted item w.
Proof. unfold cache_Delete. now intros ->. Qed.

Lemma make_room_is_evict (E : Deps) (item : Item) (w : World) :
  uint64_of_int (size (provider w)) <> 0 ->
  uint64_of_int (size (provider w)) <= Z.of_nat (length (cache (provider w))) ->
  last (cache (provider w)) = Some item ->
  make_room E w = evict E EvictionReasonCapacityReached item w.
Proof.
  intros Hbounded Hfull Hlast. unfold make_room. rewrite Hlast.
  destruct (Z.eqb_spec (uint64_of_int (size (provider w))) 0); [contradiction|].
  destruct (Z.leb_spec (uint64_of_int (size (provider w)))
              (Z.of_nat (length (cache (provider w))))); [reflexivity | lia].
Qed.

Lemma cache_sweep_non_file_entries (E : Deps) (now : Z) (w : World) :
  (forall item, In item (cache (provider w)) -> isExpired now item = true ->
                os_Stat (string_of_bytes (Value item)) (disk w) = None) ->
  actualSize (provider (cache_sweep E now w)) = actualSize (provider w)
  /\ disk (cache_sweep E now w) = disk w.
Proof.
  unfold cache_sweep. intros Hall.
  assert (Hl : forall item, In item (List.filter (isExpired now) (cache (provider w))) ->
                            os_Stat (string_of_bytes (Value item)) (disk w) = None).
  { intros item Hin. apply filter_In in Hin as [Hin Hexp]. auto. }
  clear Hall. revert Hl.
  generalize (List.filter (isExpired now) (cache (provider w))) as l.
  intros l. revert w. induction l as [|it l IH]; intros w Hl; simpl; [auto|].
  destruct (OnEviction_no_file E EvictionReasonExpired it
              (set_cache (remove_item (Key it) (cache (provider w))) w))
    as (Ha & Hd & _).
  { apply Hl. now left. }
  fold (evict E EvictionReasonExpired it w) in Ha, Hd. simpl in Ha, Hd.
  destruct (IH (evict E EvictionReasonExpired it w)) as (Ha' & Hd').
  { intros item Hin. rewrite Hd. apply Hl. now right. }
  rewrite Ha', Hd'. auto.
Qed.

(** The entry of a plain set whose payload spells no path of the disk is
    such an entry: deleting it moves neither the counter nor the disk. *)
Lemma Set_then_Delete_non_file_payload
    (E : Deps) (now : Z) (key : string) (value : bytes) (duration : Z)
    (w : World) :
  os_Stat (string_of_bytes value) (disk w) = None ->
  let w1 := snd (Set_ E now key value duration w) in
  actualSize (provider (Delete E key w1)) = actualSize (provider w1)
  /\ disk (Delete E key w1) = disk w1.
Proof.
  intros Hstat. unfold Set_, Delete. cbn [snd]. cbv zeta.
  destruct (cache_Set_frame E now key value duration w)
    as (_ & Hdisk & Hlook & _ & _).
  set (w1 := cache_Set E now key value duration w) in *.
  rewrite (cache_Delete_is_evict E key _ w1 Hlook). unfold evict.
  destruct (OnEviction_no_file E EvictionReasonDeleted
              (mkItem key value duration (now + duration))
              (set_cache
                 (remove_item key (cache (provider w1))) w1))
    as (Ha & Hd & _); [|auto].
  cbn [Value]. change (disk (set_cache _ w1)) with (disk w1).
  unfold os_Stat in *.
  destruct (disk w1 !! string_of_bytes value) as [data|] eqn:Hfile;
    [|reflexivity].
  apply Hdisk in Hfile. now rewrite Hfile in Hstat.
Qed.


(** The hooks on a value that names a directory: [os.Stat] succeeds, so the
    set of the key [d] adds the 4096 bytes of the empty directory
    [/cache/d] to the counter, and its delete takes them off and removes the
    directory.  The directory [/cache] holds a file: the delete of an entry
    that names it takes its size off the counter, fails to remove it and
    logs the failure. *)
Lemma Set_then_Delete_of_directory_entries :
  let w0 :=
    mkWorld (mkSimplefs [] 0 0 "/cache" 8 100000 "lz4")
      (<["/cache"%string := Dir 4096]>
         (<["/cache/d"%string := Dir 4096]>
            {[ "/cache/k1"%string := File (Byte.x04 :: payload 7) ]})) [] in
  let w1 := snd (Set_ demo 1000 "d" (bytes_of_string "/cache/d") 60000 w0) in
  let w2 := Delete demo "d" w1 in
  let w3 := snd (Set_ demo 2000 "c" (bytes_of_string "/cache") 60000 w2) in
  let w4 := Delete demo "c" w3 in
  actualSize (provider w1) = 8 + 4096
  /\ actualSize (provider w2) = 8
  /\ disk w2 !! "/cache/d"%string = None
  /\ actualSize (provider w3) = 8 + 4096
  /\ actualSize (provider w4) = 8
  /\ disk w4 !! "/cache"%string = Some (Dir 4096)
  /\ head (logger w4) = Some (Errorf_RemoveFailed "c").
Proof. vm_compute. repeat split. Qed.

(** The eviction hook looks for the mapping prefix in the value of the
    entry: an entry whose value holds the prefix is left alone. *)
Lemma OnEviction_inert_on_value
    (E : Deps) (reason : EvictionReason) (item : Item) (w : World) :
  Contains (string_of_bytes (Value item)) (MappingKeyPrefix E) = true ->
  OnEviction E reason item w = w.
Proof. unfold OnEviction. now intros ->. Qed.

(** C7.  The claim is that both hooks leave alone the entries whose key holds
    the mapping prefix.  The insertion hook does; the eviction hook tests the
    value instead of the key.  For the entry of key [IDX_res] whose value is
    the path of a file of 5 bytes, the eviction hook takes 5 bytes off the
    counter and deletes the file. *)
Theorem OnEviction_touches_mapping_keyed_entry :
  Contains (Key mapping_keyed_entry) (MappingKeyPrefix demo) = true
  /\ OnInsertion demo mapping_keyed_entry world_with_mapping_keyed_entry
     = world_with_mapping_keyed_entry
  /\ actualSize (provider world_with_mapping_keyed_entry) = 5
  /\ actualSize
       (provider
          (OnEviction demo EvictionReasonDeleted mapping_keyed_entry
             world_with_mapping_keyed_entry))
     = 0
  /\ disk world_with_mapping_keyed_entry !! "/cache/f"%string
     = Some (File (payload 5))
  /\ disk (OnEviction demo EvictionReasonDeleted mapping_keyed_entry
             world_with_mapping_keyed_entry) !! "/cache/f"%string
     = None.
Proof. repeat split; vm_compute; reflexivity. Qed.

(** The same through the operations of the provider: the entry is made by a
    plain set and removed by a delete. *)
Lemma Delete_of_mapping_keyed_entry :
  let w0 :=
    mkWorld (mkSimplefs [] 0 0 "/cache" 5 100 "lz4")
      {[ "/cache/f"%string := File (payload 5) ]} [] in
  let w1 := snd (Set_ demo 1000 "IDX_res" (bytes_of_string "/cache/f") 60000 w0) in
  let w2 := Delete demo "IDX_res" w1 in
  actualSize (provider w1) = 5
  /\ actualSize (provider w2) = 0
  /\ disk w2 !! "/cache/f"%string = None.
Proof. repeat split; vm_compute; reflexivity. Qed.

(** ** The plain set and the read *)

(** C9, as stated, at a concrete write: after the plain set of a payload of
    three bytes under the key [k] the value registered under [k] is not the
    path of a file on disk; it is the payload, and the disk is empty. *)
Lemma Set_registers_no_path_counterexample :
  let w' := snd (Set_ demo 1000 "k" (payload 3) 60000 (fresh_world 100 "lz4")) in
  ~ (exists fp compressed,
        Value <$> lookup_item "k" (cache (provider w'))
        = Some (bytes_of_string fp)
        /\ disk w' !! fp = Some (File compressed)).
Proof.
  cbv zeta. intros (fp & compressed & _ & Hfile).
  change (disk (snd (Set_ demo 1000 "k" (payload 3) 60000 (fresh_world 100 "lz4"))))
    with (∅ : gmap string node) in Hfile.
  now rewrite lookup_empty in Hfile.
Qed.

(** C9, amended.  A plain set returns nil and registers the payload itself
    under the key, as the most recently used entry, with the given TTL.  It
    runs no codec, does not consult the quota reclaimer and writes no file:
    the index afterwards is the new entry followed by the entries the other
    keys had, and the disk is the one before the call, but for the least
    recently used entry and its file when a new key meets the entry limit.
    When the key is new the insertion hook runs on the new entry: the world
    returned is the one the hook leaves, with the size of what the payload
    names, if it names a file or a directory, added to the counter unless
    the key holds the mapping prefix. *)
Theorem Set_registers_raw_payload
    (E : Deps) (now : Z) (key : string) (value : bytes) (duration : Z)
    (w : World) :
  let item := mkItem key value duration (now + duration) in
  let w1 :=
    match lookup_item key (cache (provider w)) with
    | Some _ => w
    | None => make_room E w
    end in
  let w' := snd (Set_ E now key value duration w) in
  fst (Set_ E now key value duration w) = None
  /\ head (cache (provider w')) = Some item
  /\ lookup_item key (cache (provider w')) = Some item
  /\ cache (provider w') = item :: remove_item key (cache (provider w1))
  /\ disk w' = disk w1
  /\ config w' = config w
  /\ (forall p data, disk w' !! p = Some data -> disk w !! p = Some data)
  /\ (lookup_item key (cache (provider w)) = None ->
      w' = OnInsertion E item (set_cache (item :: cache (provider w1)) w1)
      /\ actualSize (provider w')
         = (if Contains key (MappingKeyPrefix E) then actualSize (provider w1)
            else
              match os_Stat (string_of_bytes value) (disk w1) with
              | Some sz => wrap64 (actualSize (provider w1) + sz)
              | None => actualSize (provider w1)
              end)
      /\ logger w'
         = (if Contains key (MappingKeyPrefix E) then logger w1
            else
              match os_Stat (string_of_bytes value) (disk w1) with
              | Some sz =>
                  Debugf_SizeIncreased sz (wrap64 (actualSize (provider w1) + sz))
                  :: logger w1
              | None => Errorf_StatFailed key :: logger w1
              end)).
Proof.
  cbv zeta. unfold Set_. cbn [fst snd].
  destruct (cache_Set_frame E now key value duration w)
    as (Hcfg & Hdisk & Hlook & Hhead & _).
  do 3 (split; [auto|]).
  unfold cache_Set.
  destruct (lookup_item key (cache (provider w))) as [old|] eqn:Hkey.
  - destruct (OnInsertion_frame E (mkItem key value duration (now + duration))
                (set_cache
                   (mkItem key value duration (now + duration)
                    :: remove_item key (cache (provider w))) w))
      as (Hc & Hd & Hi).
    split; [exact Hi|]. split; [exact Hd|]. split; [exact Hc|].
    split; [|discriminate].
    intros p data. rewrite Hd. auto.
  - pose proof (make_room_shrinks E w) as Hsh.
    set (w1 := make_room E w) in *.
    destruct (OnInsertion_frame E (mkItem key value duration (now + duration))
                (set_cache
                   (mkItem key value duration (now + duration)
                    :: cache (provider w1)) w1))
      as (Hc & Hd & Hi).
    assert (Hnew : lookup_item key (cache (provider w1)) = None).
    { destruct (sh_cache _ _ Hsh key) as [H|H]; congruence. }
    split; [rewrite Hi; simpl; now rewrite remove_item_absent|].
    split; [exact Hd|].
    split; [rewrite Hc; apply (sh_config _ _ Hsh)|].
    split; [intros p data; rewrite Hd; apply (sh_disk _ _ Hsh)|].
    intros _. split; [reflexivity|].
    unfold OnInsertion. cbn [Key Value].
    destruct (Contains key (MappingKeyPrefix E)); [split; reflexivity|].
    change (disk (set_cache _ w1)) with (disk w1).
    destruct (os_Stat (string_of_bytes value) (disk w1)); split; reflexivity.
Qed.

Lemma Set_registers_raw_payload_witness :
  let item := mkItem "x" (bytes_of_string "/cache/k1") 60000 63000 in
  let w' :=
    snd (Set_ demo 3000 "x" (bytes_of_string "/cache/k1") 60000 world_with_k1) in
  lookup_item "x" (cache (provider world_with_k1)) = None
  /\ fst (Set_ demo 3000 "x" (bytes_of_string "/cache/k1") 60000 world_with_k1)
     = None
  /\ cache (provider w') = item :: cache (provider world_with_k1)
  /\ disk w' = disk world_with_k1
  /\ actualSize (provider w') = 16
  /\ logger w' = [Debugf_SizeIncreased 8 16].
Proof.
  cbv zeta.
  destruct (Set_registers_raw_payload demo 3000 "x"
              (bytes_of_string "/cache/k1") 60000 world_with_k1)
    as (Hnil & _ & _ & Hcache & Hdisk & _ & _ & Hnew).
  destruct (Hnew eq_refl) as (_ & Hcounter & Hlog).
  split; [reflexivity|]. split; [exact Hnil|].
  split; [exact Hcache|]. split; [exact Hdisk|].
  split; [exact Hcounter | exact Hlog].
Defined.

(** C3, as stated, at a concrete payload: with no compression configured and
    a file [/cache/f] holding [hello] on disk, the set of the payload
    [/cache/f] followed by a get at the same instant returns [hello]. *)
Lemma Set_then_Get_counterexample :
  fst (Get demo 1000 "k"
         (snd (Set_ demo 1000 "k" (bytes_of_string "/cache/f") 60000
                 world_with_file)))
  = Some (bytes_of_string "hello")
  /\ fst (Get demo 1000 "k"
            (snd (Set_ demo 1000 "k" (bytes_of_string "/cache/f") 60000
                    world_with_file)))
     <> Some (bytes_of_string "/cache/f").
Proof. split; [vm_compute; reflexivity | vm_compute; discriminate]. Qed.

(** C3, amended.  For every key, every payload (the empty one included) that
    does not spell the path of a readable file, and every positive TTL, a set
    followed by a get before the TTL has run out returns the payload
    unchanged, whatever compression method is configured. *)
Theorem Set_then_Get_roundtrip
    (E : Deps) (now t : Z) (key : string) (value : bytes) (ttl : Z) (w : World) :
  ttl > 0 ->
  now <= t <= now + ttl ->
  os_ReadFile (string_of_bytes value) (disk w) = None ->
  fst (Get E t key (snd (Set_ E now key value ttl w))) = Some value.
Proof.
  intros Httl Ht Hnofile. unfold Set_. cbn [snd].
  destruct (cache_Set_frame E now key value ttl w)
    as (_ & Hdisk & Hlook & _ & _).
  set (w' := cache_Set E now key value ttl w) in *.
  unfold Get, cache_Get. rewrite Hlook.
  assert (Hlive : isExpired t (mkItem key value ttl (now + ttl)) = false).
  { unfold isExpired. cbn [TTL expiresAt].
    apply orb_false_iff. split; [apply Z.leb_gt | apply Z.ltb_ge]; lia. }
  rewrite Hlive. cbn [Value].
  change (disk (set_cache _ w')) with (disk w').
  unfold os_ReadFile in *.
  destruct (disk w' !! string_of_bytes value) as [[data|r]|] eqn:Hfile;
    [|reflexivity..].
  apply Hdisk in Hfile. rewrite Hfile in Hnofile. discriminate.
Qed.

Lemma Set_then_Get_roundtrip_witness :
  60000 > 0
  /\ 1000 <= 1000 <= 1000 + 60000
  /\ os_ReadFile (string_of_bytes []) (disk world_with_file) = None
  /\ fst (Get demo 1000 "k" (snd (Set_ demo 1000 "k" [] 60000 world_with_file)))
     = Some [].
Proof.
  split; [lia|]. split; [lia|]. split; [reflexivity|].
  apply (Set_then_Get_roundtrip demo 1000 1000 "k" [] 60000 world_with_file);
    [lia | lia | reflexivity].
Defined.

(** ** The codec step of the multi-level write *)

(** C4, as stated, at a concrete write: with the method [gzip] configured the
    write of a payload of 8 bytes returns nil and the file of the variant
    holds the payload as it is. *)
Lemma unsupported_method_write_counterexample :
  match
    SetMultiLevel demo 0 1000 2000 "res" "k1" (payload 8) [] "etag" 60000 "res"
      (fresh_world 100 "gzip")
  with
  | Some (err, w') =>
      err = None /\ disk w' !! "/cache/k1"%string = Some (File (payload 8))
  | None => False
  end.
Proof. vm_compute. split; reflexivity. Qed.

(** C4, amended.  For every write with a configured method other than
    [zstd], [lz4] and the empty string, the encode step does not fail: it
    logs a warning and hands the payload on uncompressed, and the write goes
    on with it; once the reclamation has returned and the file can be
    written, the bytes written to the blob file are the payload itself. *)
Theorem SetMultiLevel_unsupported_method_stores_plaintext
    (E : Deps) (fuel : nat) (now now2 : Z) (baseKey variedKey : string)
    (value : bytes) (variedHeaders : Header) (etag : string) (duration : Z)
    (realKey : string) (w w1 : World) :
  supported (compression (provider w)) = false ->
  recoverEnoughSpaceIfNeeded E fuel (Z.of_nat (length value))
    (log (Warnf_UnknownCompression (compression (provider w))) w) = Some w1 ->
  writable E (joinedFP E variedKey w1) = true ->
  encode E variedKey value w
  = (Ok value, log (Warnf_UnknownCompression (compression (provider w))) w)
  /\ SetMultiLevel E fuel now now2 baseKey variedKey value variedHeaders etag
       duration realKey w
     = Some
         (update_mapping E now now2 baseKey variedKey variedHeaders etag
            duration realKey
            (cache_Set E now variedKey
               (bytes_of_string (joinedFP E variedKey w1)) duration
               (set_disk (<[joinedFP E variedKey w1 := File value]> (disk w1))
                  w1))).
Proof.
  intros Hunsupported Hreclaim Hwritable.
  assert (Hencode :
            encode E variedKey value w
            = (Ok value,
               log (Warnf_UnknownCompression (compression (provider w))) w)).
  { unfold supported in Hunsupported. unfold encode.
    apply orb_false_iff in Hunsupported as [Hrest Hnone].
    apply orb_false_iff in Hrest as [Hzstd Hlz4].
    now rewrite Hzstd, Hlz4, Hnone. }
  split; [exact Hencode|].
  unfold SetMultiLevel. rewrite Hencode, Hreclaim.
  unfold os_WriteFile. now rewrite Hwritable.
Qed.

Lemma SetMultiLevel_unsupported_method_stores_plaintext_witness :
  encode demo "k1" (payload 8) (fresh_world 100 "gzip")
  = (Ok (payload 8),
     log (Warnf_UnknownCompression "gzip") (fresh_world 100 "gzip"))
  /\ SetMultiLevel demo 0 1000 2000 "res" "k1" (payload 8) [] "etag" 60000
       "res" (fresh_world 100 "gzip")
     = Some
         (update_mapping demo 1000 2000 "res" "k1" [] "etag" 60000 "res"
            (cache_Set demo 1000 "k1" (bytes_of_string "/cache/k1") 60000
               (set_disk
                  (<["/cache/k1"%string := File (payload 8)]>
                     (disk (log (Warnf_UnknownCompression "gzip")
                              (fresh_world 100 "gzip"))))
                  (log (Warnf_UnknownCompression "gzip")
                     (fresh_world 100 "gzip"))))).
Proof.
  apply (SetMultiLevel_unsupported_method_stores_plaintext demo 0 1000 2000
           "res" "k1" (payload 8) [] "etag" 60000 "res"
           (fresh_world 100 "gzip")
           (log (Warnf_UnknownCompression "gzip") (fresh_world 100 "gzip")));
    reflexivity.
Defined.

(** ** The multi-level write *)

Section MultiLevel.
Context (E : Deps).

(** The write-back of the mapping record once the merge has succeeded. *)
Lemma update_mapping_ok (now now2 : Z) (baseKey variedKey : string)
    (variedHeaders : Header) (etag : string) (duration : Z)
    (realKey : string) (w : World) (item : bytes) (w1 : World) (val : bytes) :
  load_mapping now (MappingKeyPrefix E ++ baseKey) w = (item, w1) ->
  MappingUpdater E variedKey item now (now + duration)
    (now + wrap64 (duration + stale (provider w1)))
    variedHeaders etag realKey = Ok val ->
  update_mapping E now now2 baseKey variedKey variedHeaders etag duration
    realKey w
  = (None,
     cache_Set E now2 (MappingKeyPrefix E ++ baseKey) val
       (- (Nanosecond now2 * 2 * 1000000000))
       (log (Debugf_StoreMapping variedKey) w1)).
Proof.
  intros Hload Hmerge. unfold update_mapping.
  now rewrite Hload, Hmerge, negativeNow_value.
Qed.

Lemma update_mapping_failed (now now2 : Z) (baseKey variedKey : string)
    (variedHeaders : Header) (etag : string) (duration : Z)
    (realKey : string) (w : World) (item : bytes) (w1 : World) (e : error) :
  load_mapping now (MappingKeyPrefix E ++ baseKey) w = (item, w1) ->
  MappingUpdater E variedKey item now (now + duration)
    (now + wrap64 (duration + stale (provider w1)))
    variedHeaders etag realKey = Err e ->
  update_mapping E now now2 baseKey variedKey variedHeaders etag duration
    realKey w
  = (Some e, w1).
Proof.
  intros Hload Hmerge. unfold update_mapping. now rewrite Hload, Hmerge.
Qed.

(** The mapping update moves the counter down only. *)
Lemma update_mapping_acct (now now2 : Z) (baseKey variedKey : string)
    (variedHeaders : Header) (etag : string) (duration : Z)
    (realKey : string) (w : World) :
  - 2 ^ 63 <= actualSize (provider w) - stat_bytes w ->
  actualSize (provider w) < 2 ^ 63 ->
  let w' :=
    snd (update_mapping E now now2 baseKey variedKey variedHeaders etag
           duration realKey w) in
  config w' = config w
  /\ actualSize (provider w') <= actualSize (provider w).
Proof.
  intros Hacct Hhi. cbv zeta. unfold update_mapping.
  pose proof (load_mapping_frame now (MappingKeyPrefix E ++ baseKey) w)
    as (Hcfg & Hdisk & Ha & _).
  pose proof (load_mapping_stat_bytes now (MappingKeyPrefix E ++ baseKey) w)
    as Hstat.
  destruct (load_mapping now (MappingKeyPrefix E ++ baseKey) w) as [item w1].
  cbn [snd] in *.
  destruct (MappingUpdater _ _ _ _ _ _ _ _ _) as [val|e]; cbn [snd].
  - rewrite negativeNow_value.
    set (w2 := log (Debugf_StoreMapping variedKey) w1).
    destruct (cache_Set_frame E now2 (MappingKeyPrefix E ++ baseKey) val
                (- (Nanosecond now2 * 2 * 1000000000)) w2)
      as (Hcfg2 & _).
    pose proof (cache_Set_acct_inert E now2 (MappingKeyPrefix E ++ baseKey) val
                  (- (Nanosecond now2 * 2 * 1000000000)) w2) as Hle.
    cbn [snd]. split.
    + rewrite Hcfg2. subst w2. exact Hcfg.
    + rewrite <- Ha. apply Hle.
      * apply Contains_app.
      * subst w2. unfold stat_bytes in *. simpl. lia.
      * subst w2. simpl. lia.
  - split; [exact Hcfg | lia].
Qed.
End MultiLevel.

(** C8.  Every call of the multi-level write that reaches the update of the
    mapping record, the encoding, the reclamation, the file write and the
    merge having gone through, returns nil and has written the merged record
    under the mapping key with the TTL [- (2 * ns)] seconds, where [ns] is
    the nanosecond field of the clock: a TTL that is zero or negative, so the
    entry counts as expired at every instant. *)
Theorem SetMultiLevel_mapping_record_is_expired
    (E : Deps) (fuel : nat) (now now2 : Z) (baseKey variedKey : string)
    (value : bytes) (variedHeaders : Header) (etag : string) (duration : Z)
    (realKey : string) (w : World)
    (compressed : bytes) (w0 w1 : World) (d : gmap string node)
    (item : bytes) (w2 : World) (val : bytes) :
  encode E variedKey value w = (Ok compressed, w0) ->
  recoverEnoughSpaceIfNeeded E fuel (Z.of_nat (length compressed)) w0 = Some w1 ->
  os_WriteFile E (joinedFP E variedKey w1) compressed (disk w1) = Some d ->
  load_mapping now (MappingKeyPrefix E ++ baseKey)
    (cache_Set E now variedKey (bytes_of_string (joinedFP E variedKey w1))
       duration (set_disk d w1))
  = (item, w2) ->
  MappingUpdater E variedKey item now (now + duration)
    (now + wrap64 (duration + stale (provider w2)))
    variedHeaders etag realKey = Ok val ->
  exists ttl w',
    SetMultiLevel E fuel now now2 baseKey variedKey value variedHeaders etag
      duration realKey w = Some (None, w')
    /\ ttl = - (Nanosecond now2 * 2 * 1000000000)
    /\ ttl <= 0
    /\ lookup_item (MappingKeyPrefix E ++ baseKey) (cache (provider w'))
       = Some (mkItem (MappingKeyPrefix E ++ baseKey) val ttl (now2 + ttl))
    /\ forall t,
        isExpired t (mkItem (MappingKeyPrefix E ++ baseKey) val ttl (now2 + ttl))
        = true.
Proof.
  intros Hencode Hreclaim Hwrite Hload Hmerge.
  pose proof (Nanosecond_range now2) as Hns.
  eexists _, _. split; [|split; [reflexivity|]].
  - unfold SetMultiLevel. rewrite Hencode, Hreclaim, Hwrite.
    now rewrite (update_mapping_ok E _ _ _ _ _ _ _ _ _ _ _ _ Hload Hmerge).
  - split; [lia|]. split.
    + apply cache_Set_frame.
    + intros t. unfold isExpired. cbn [TTL].
      apply orb_true_iff. left. apply Z.leb_le. lia.
Qed.

Lemma SetMultiLevel_mapping_record_is_expired_witness :
  exists ttl w',
    SetMultiLevel demo 0 1000 2000000123 "res" "k1" (payload 7) [] "etag" 60000
      "res" (fresh_world 100 "lz4") = Some (None, w')
    /\ ttl = - (Nanosecond 2000000123 * 2 * 1000000000)
    /\ ttl <= 0
    /\ lookup_item (MappingKeyPrefix demo ++ "res") (cache (provider w'))
       = Some (mkItem (MappingKeyPrefix demo ++ "res")
                 (bytes_of_string "k1;") ttl (2000000123 + ttl))
    /\ forall t,
        isExpired t
          (mkItem (MappingKeyPrefix demo ++ "res") (bytes_of_string "k1;") ttl
             (2000000123 + ttl))
        = true.
Proof.
  eapply (SetMultiLevel_mapping_record_is_expired demo 0 1000 2000000123
            "res" "k1" (payload 7) [] "etag" 60000 "res"
            (fresh_world 100 "lz4")); reflexivity.
Defined.



(** C5, as stated, at a concrete write: with a merge that fails, the call
    returns the error of the merge but the index, empty before the call,
    holds the entry of the varied key after it. *)
Lemma merge_failure_counterexample :
  match
    SetMultiLevel demo_failing_merge 0 1000 2000 "res" "k1" (payload 7) []
      "etag" 60000 "res" (fresh_world 100 "lz4")
  with
  | Some (err, w') =>
      err = Some "mapping: cannot decode the record"%string
      /\ cache (provider (fresh_world 100 "lz4")) = []
      /\ cache (provider w')
         = [mkItem "k1" (bytes_of_string "/cache/k1") 60000 61000]
      /\ cache (provider w') <> cache (provider (fresh_world 100 "lz4"))
  | None => False
  end.
Proof. vm_compute. repeat split. discriminate. Qed.

(** C5, amended.  For every call of the multi-level write whose merge step
    fails, the call returns the error of the merge and does not write the
    mapping record: apart from the varied key, every entry of the index after
    the call was an entry of the index before it.  The entry of the varied
    key, with the path of the blob as its value, has been registered before
    the merge and stays. *)
Theorem SetMultiLevel_merge_failure
    (E : Deps) (fuel : nat) (now now2 : Z) (baseKey variedKey : string)
    (value : bytes) (variedHeaders : Header) (etag : string) (duration : Z)
    (realKey : string) (w : World)
    (compressed : bytes) (w0 w1 : World) (d : gmap string node)
    (item : bytes) (w2 : World) (e : error) :
  encode E variedKey value w = (Ok compressed, w0) ->
  recoverEnoughSpaceIfNeeded E fuel (Z.of_nat (length compressed)) w0 = Some w1 ->
  os_WriteFile E (joinedFP E variedKey w1) compressed (disk w1) = Some d ->
  load_mapping now (MappingKeyPrefix E ++ baseKey)
    (cache_Set E now variedKey (bytes_of_string (joinedFP E variedKey w1))
       duration (set_disk d w1))
  = (item, w2) ->
  MappingUpdater E variedKey item now (now + duration)
    (now + wrap64 (duration + stale (provider w2)))
    variedHeaders etag realKey = Err e ->
  SetMultiLevel E fuel now now2 baseKey variedKey value variedHeaders etag
    duration realKey w = Some (Some e, w2)
  /\ lookup_item variedKey (cache (provider w2))
     = Some (mkItem variedKey (bytes_of_string (joinedFP E variedKey w1))
               duration (now + duration))
  /\ forall k,
      k <> variedKey ->
      lookup_item k (cache (provider w2)) = None
      \/ lookup_item k (cache (provider w2)) = lookup_item k (cache (provider w)).
Proof.
  intros Hencode Hreclaim Hwrite Hload Hmerge.
  split.
  { unfold SetMultiLevel. rewrite Hencode, Hreclaim, Hwrite.
    now rewrite (update_mapping_failed E _ _ _ _ _ _ _ _ _ _ _ _ Hload Hmerge). }
  pose proof (encode_frame E variedKey value w) as Hsh0.
  rewrite Hencode in Hsh0. cbn [snd] in Hsh0.
  pose proof (recoverEnoughSpaceIfNeeded_shrinks E _ _ _ _ Hreclaim) as Hsh1.
  pose proof (shrinks_trans _ _ _ Hsh0 Hsh1) as Hsh.
  destruct (cache_Set_frame E now variedKey
              (bytes_of_string (joinedFP E variedKey w1)) duration
              (set_disk d w1))
    as (_ & _ & Hlook & _ & Hothers).
  pose proof (load_mapping_frame now (MappingKeyPrefix E ++ baseKey)
                (cache_Set E now variedKey
                   (bytes_of_string (joinedFP E variedKey w1)) duration
                   (set_disk d w1)))
    as (_ & _ & _ & Hsame).
  rewrite Hload in Hsame. cbn [snd] in Hsame.
  split.
  - now rewrite Hsame.
  - intros k Hk. rewrite Hsame.
    destruct (Hothers k Hk) as [Hnone|Hkeep]; [now left|].
    rewrite Hkeep. change (cache (provider (set_disk d w1)))
      with (cache (provider w1)).
    apply (sh_cache _ _ Hsh).
Qed.

Lemma SetMultiLevel_merge_failure_witness :
  SetMultiLevel demo_failing_merge 0 1000 2000 "res" "k1" (payload 7) []
    "etag" 60000 "res" (fresh_world 100 "lz4")
  = Some (Some "mapping: cannot decode the record"%string,
          snd (load_mapping 1000 "IDX_res"
                 (cache_Set demo_failing_merge 1000 "k1"
                    (bytes_of_string "/cache/k1") 60000
                    (set_disk {[ "/cache/k1"%string := File (Byte.x04 :: payload 7) ]}
                       (fresh_world 100 "lz4"))))).
Proof.
  refine (proj1 (SetMultiLevel_merge_failure demo_failing_merge 0 1000 2000
                   "res" "k1" (payload 7) [] "etag" 60000 "res"
                   (fresh_world 100 "lz4") (Byte.x04 :: payload 7)
                   (fresh_world 100 "lz4") (fresh_world 100 "lz4")
                   {[ "/cache/k1"%string := File (Byte.x04 :: payload 7) ]}
                   [] _ "mapping: cannot decode the record"%string
                   _ _ _ _ _));
    reflexivity.
Defined.

(** ** The quota *)

Lemma config_directorySize (w w' : World) :
  config w' = config w ->
  directorySize (provider w') = directorySize (provider w).
Proof. unfold config. intros H. now injection H. Qed.

(** A plain set whose payload names nothing on disk never moves the counter
    up. *)
Lemma Set_non_file_payload_keeps_counter
    (E : Deps) (now : Z) (key : string) (value : bytes) (duration : Z)
    (w : World) :
  os_Stat (string_of_bytes value) (disk w) = None ->
  - 2 ^ 63 <= actualSize (provider w) - stat_bytes w ->
  actualSize (provider w) < 2 ^ 63 ->
  actualSize (provider (snd (Set_ E now key value duration w)))
  <= actualSize (provider w).
Proof.
  intros Hstat Hacct Hhi. unfold Set_. cbn [snd].
  apply (cache_Set_acct E now key value duration w (- 2 ^ 63) 0
           (actualSize (provider w))); try lia.
  intros n Hn. unfold os_Stat in Hstat. rewrite Hn in Hstat. discriminate.
Qed.

(** C1, as stated, at a concrete plain set: with a budget of 10 bytes, a
    counter at 8 bytes and the blob [/cache/k1] of 8 bytes on disk, the plain
    set of the payload [/cache/k1], 9 bytes long, returns nil and leaves the
    counter at 16 bytes. *)
Lemma Set_exceeds_budget_counterexample :
  let value := bytes_of_string "/cache/k1" in
  let r := Set_ demo 3000 "x" value 60000 world_with_k1 in
  fst r = None
  /\ directorySize (provider (snd r)) = 10
  /\ Z.of_nat (length value) <= directorySize (provider (snd r))
  /\ actualSize (provider (snd r)) = 16
  /\ ~ actualSize (provider (snd r)) <= directorySize (provider (snd r)).
Proof. vm_compute. repeat split; try discriminate. intros H. now apply H. Qed.

(** The state of the counterexample is the one a multi-level write of 7
    bytes leaves behind. *)
Lemma world_with_k1_reached :
  match
    SetMultiLevel demo 0 1000 2000 "res" "k1" (payload 7) [] "etag" 60000 "res"
      (fresh_world 10 "lz4")
  with
  | Some (err, w') =>
      err = None
      /\ actualSize (provider w') = actualSize (provider world_with_k1)
      /\ disk w' = disk world_with_k1
      /\ lookup_item "k1" (cache (provider w'))
         = lookup_item "k1" (cache (provider world_with_k1))
  | None => False
  end.
Proof. vm_compute. repeat split. Qed.

(** C1, amended.  For every call of the multi-level write, the operation that
    consults the quota reclaimer, with a finite budget configured and the
    accounting within the range of [int64]: once the reclamation has
    returned, the call returns and leaves the counter at or below the
    budget.  The plain set does not consult the budget. *)
Theorem SetMultiLevel_keeps_budget
    (E : Deps) (fuel : nat) (now now2 : Z) (baseKey variedKey : string)
    (value : bytes) (variedHeaders : Header) (etag : string) (duration : Z)
    (realKey : string) (w : World) (compressed : bytes) (w0 w1 : World) :
  encode E variedKey value w = (Ok compressed, w0) ->
  recoverEnoughSpaceIfNeeded E fuel (Z.of_nat (length compressed)) w0 = Some w1 ->
  directorySize (provider w) > -1 ->
  in_range w (Z.of_nat (length compressed)) ->
  exists err w',
    SetMultiLevel E fuel now now2 baseKey variedKey value variedHeaders etag
      duration realKey w = Some (err, w')
    /\ directorySize (provider w') = directorySize (provider w)
    /\ actualSize (provider w') <= directorySize (provider w').
Proof.
  intros Hencode Hreclaim Hbudget (Ha & Hu & Hb).
  set (sz := Z.of_nat (length compressed)) in *.
  assert (Hsz : 0 <= sz) by (subst sz; lia).
  pose proof (encode_frame E variedKey value w) as Hsh0.
  pose proof (encode_spends E variedKey value w) as Hsp0.
  rewrite Hencode in Hsh0, Hsp0. cbn [snd] in Hsh0, Hsp0.
  pose proof (recoverEnoughSpaceIfNeeded_shrinks E _ _ _ _ Hreclaim) as Hsh1.
  pose proof (recoverEnoughSpaceIfNeeded_spends E _ _ _ _ Hreclaim) as Hsp1.
  pose proof (shrinks_trans _ _ _ Hsh0 Hsh1) as Hsh.
  pose proof (spends_trans _ _ _ Hsp0 Hsp1) as Hsp.
  pose proof (config_directorySize _ _ (sh_config _ _ Hsh)) as Hdir1.
  destruct (Hsp (- 2 ^ 63 + sz)) as (Hacct1 & Hle1); [lia..|].
  unfold stat_bytes in Hu, Hacct1.
  pose proof (disk_usage_nonneg (disk w)) as Hu0.
  pose proof (index_dir_bytes_nonneg (cache (provider w)) (disk w)) as Hd0.
  pose proof (disk_usage_nonneg (disk w1)) as Hu1.
  pose proof (index_dir_bytes_nonneg (cache (provider w1)) (disk w1)) as Hd1.
  pose proof (recoverEnoughSpaceIfNeeded_post E _ _ _ _ Hreclaim) as Hpost.
  rewrite Hdir1 in Hpost. specialize (Hpost Hbudget).
  rewrite wrap64_small in Hpost by lia.
  unfold SetMultiLevel. rewrite Hencode. fold sz. rewrite Hreclaim.
  unfold os_WriteFile. destruct (writable E (joinedFP E variedKey w1)).
  - set (fp := joinedFP E variedKey w1).
    set (w1d := set_disk (<[fp := File compressed]> (disk w1)) w1).
    pose proof (disk_usage_insert_le (disk w1) fp (File compressed)) as Hins.
    pose proof (index_dir_bytes_write (cache (provider w1)) fp compressed
                  (disk w1)) as Hkeep.
    cbn [node_size] in Hins. fold sz in Hins.
    destruct (cache_Set_frame E now variedKey (bytes_of_string fp) duration w1d)
      as (Hcfg2 & _).
    destruct (cache_Set_acct E now variedKey (bytes_of_string fp) duration w1d
                (- 2 ^ 63) sz (directorySize (provider w)))
      as (Hacct2 & Hle2).
    + intros n. rewrite string_of_bytes_of_string. subst w1d. simpl.
      rewrite lookup_insert_eq. intros [= <-]. now exists compressed.
    + exact Hsz.
    + lia.
    + subst w1d. unfold stat_bytes. simpl. lia.
    + subst w1d. simpl. lia.
    + exact Hb.
    + set (w2 := cache_Set E now variedKey (bytes_of_string fp) duration w1d)
        in *.
      destruct (update_mapping_acct E now now2 baseKey variedKey variedHeaders
                  etag duration realKey w2)
        as (Hcfg3 & Hle3); [exact Hacct2 | lia |].
      destruct (update_mapping E now now2 baseKey variedKey variedHeaders etag
                  duration realKey w2) as [err w'] eqn:Hupdate.
      cbn [snd] in *.
      exists err, w'. split; [reflexivity|].
      assert (Hdir : directorySize (provider w') = directorySize (provider w)).
      { rewrite (config_directorySize _ _ Hcfg3).
        rewrite (config_directorySize _ _ Hcfg2). subst w1d. exact Hdir1. }
      split; [exact Hdir | lia].
  - exists None, (log (Errorf_WriteFile variedKey) w1).
    split; [reflexivity|]. simpl. split; [exact Hdir1 | lia].
Qed.

Lemma SetMultiLevel_keeps_budget_witness :
  exists err w',
    SetMultiLevel demo 1 5000 6000 "res" "k2" (payload 7) [] "etag" 60000 "res"
      world_in_cwd = Some (err, w')
    /\ directorySize (provider w') = directorySize (provider world_in_cwd)
    /\ actualSize (provider w') <= directorySize (provider w').
Proof.
  eapply (SetMultiLevel_keeps_budget demo 1 5000 6000 "res" "k2" (payload 7) []
            "etag" 60000 "res" world_in_cwd).
  - reflexivity.
  - vm_compute. reflexivity.
  - reflexivity.
  - unfold in_range. vm_compute. repeat split; discriminate.
Defined.

(** In that run the reclamation evicts [k1] and the write of [k2] follows. *)
Lemma SetMultiLevel_evicts_in_cwd :
  match
    SetMultiLevel demo 1 5000 6000 "res" "k2" (payload 7) [] "etag" 60000 "res"
      world_in_cwd
  with
  | Some (err, w') =>
      err = None
      /\ map Key (cache (provider w')) = ["IDX_res"; "k2"]%string
      /\ actualSize (provider w') = 8
      /\ disk w' !! "k1"%string = None
      /\ disk w' !! "k2"%string = Some (File (Byte.x04 :: payload 7))
  | None => False
  end.
Proof. vm_compute. repeat split. Qed.

(** * Further properties of the provider *)

(** ** Keys of the index *)

Lemma lookup_item_None_iff (k : string) (c : list Item) :
  lookup_item k c = None <-> ~ In k (map Key c).
Proof.
  induction c as [|it c IH]; simpl; [tauto|].
  destruct (String.eqb_spec (Key it) k) as [Heq|Hne].
  - split; [discriminate | intros H; exfalso; apply H; now left].
  - rewrite IH. tauto.
Qed.

Lemma lookup_item_In (k : string) (c : list Item) :
  In k (map Key c) <-> lookup_item k c <> None.
Proof.
  pose proof (lookup_item_None_iff k c) as H.
  destruct (lookup_item k c); split; intros; try congruence.
  - destruct (in_dec string_dec k (map Key c)) as [Hin|Hout]; [exact Hin|].
    apply H in Hout. discriminate.
  - apply H in H0; [contradiction | reflexivity].
Qed.

Lemma In_remove_item (k k' : string) (c : list Item) :
  In k' (map Key (remove_item k c)) <-> k' <> k /\ In k' (map Key c).
Proof.
  rewrite !lookup_item_In, lookup_remove_item.
  destruct (String.eqb_spec k k') as [->|Hne]; split.
  - congruence.
  - intros [H _]. congruence.
  - intros H. split; [congruence | exact H].
  - tauto.
Qed.

Lemma NoDup_remove_item (k : string) (c : list Item) :
  List.NoDup (map Key c) -> List.NoDup (map Key (remove_item k c)).
Proof.
  induction c as [|it c IH]; simpl; intros Hnd; [constructor|].
  inversion Hnd as [|? ? Hout Hrest]; subst.
  destruct (String.eqb (Key it) k); simpl; [now apply IH|].
  constructor; [|now apply IH].
  intros Hin. apply In_remove_item in Hin. tauto.
Qed.

Lemma NoDup_move_front (k : string) (it : Item) (c : list Item) :
  Key it = k ->
  List.NoDup (map Key c) -> List.NoDup (map Key (it :: remove_item k c)).
Proof.
  intros HK Hnd. simpl. constructor; [|now apply NoDup_remove_item].
  rewrite HK. intros Hin. apply In_remove_item in Hin. tauto.
Qed.

Section IndexOperations.
Context (E : Deps).

Lemma OnEviction_cache (reason : EvictionReason) (it : Item) (w : World) :
  cache (provider (OnEviction E reason it w)) = cache (provider w).
Proof.
  unfold OnEviction. destruct (Contains _ _); [reflexivity|].
  destruct (os_Stat _ _); [|reflexivity]. simpl.
  unfold onEvict. simpl. now destruct (os_Remove _ _).
Qed.

Lemma evict_cache (reason : EvictionReason) (it : Item) (w : World) :
  cache (provider (evict E reason it w))
  = remove_item (Key it) (cache (provider w)).
Proof. unfold evict. now rewrite OnEviction_cache. Qed.

Lemma cache_Delete_cache (k : string) (w : World) :
  cache (provider (cache_Delete E k w)) = remove_item k (cache (provider w)).
Proof.
  unfold cache_Delete.
  destruct (lookup_item k (cache (provider w))) as [it|] eqn:Hk.
  - rewrite evict_cache. now rewrite (lookup_item_Key _ _ _ Hk).
  - now rewrite remove_item_absent.
Qed.

Lemma make_room_cache (w : World) :
  cache (provider (make_room E w)) = cache (provider w)
  \/ exists k, cache (provider (make_room E w))
               = remove_item k (cache (provider w)).
Proof.
  unfold make_room. destruct (_ && _); [|now left].
  destruct (last _) as [lru|]; [|now left].
  right. exists (Key lru). apply evict_cache.
Qed.

Lemma cache_Set_cache (now : Z) (k : string) (v : bytes) (ttl : Z) (w : World) :
  exists c1,
    cache (provider (cache_Set E now k v ttl w))
    = mkItem k v ttl (now + ttl) :: c1
    /\ ~ In k (map Key c1)
    /\ (List.NoDup (map Key (cache (provider w))) -> List.NoDup (map Key c1)).
Proof.
  unfold cache_Set.
  destruct (lookup_item k (cache (provider w))) as [old|] eqn:Hk.
  - exists (remove_item k (cache (provider w))).
    destruct (OnInsertion_frame E (mkItem k v ttl (now + ttl))
                (set_cache (mkItem k v ttl (now + ttl)
                            :: remove_item k (cache (provider w))) w))
      as (_ & _ & ->).
    split; [reflexivity|]. split.
    + intros Hin. apply In_remove_item in Hin. tauto.
    + apply NoDup_remove_item.
  - exists (cache (provider (make_room E w))).
    destruct (OnInsertion_frame E (mkItem k v ttl (now + ttl))
                (set_cache (mkItem k v ttl (now + ttl)
                            :: cache (provider (make_room E w)))
                   (make_room E w)))
      as (_ & _ & ->).
    split; [reflexivity|].
    apply lookup_item_None_iff in Hk.
    destruct (make_room_cache w) as [->|[k0 ->]].
    + tauto.
    + split.
      * intros Hin. apply In_remove_item in Hin. tauto.
      * apply NoDup_remove_item.
Qed.

Lemma cache_Set_keys_unique (now : Z) (k : string) (v : bytes) (ttl : Z)
    (w : World) :
  keys_unique w -> keys_unique (cache_Set E now k v ttl w).
Proof.
  unfold keys_unique. rewrite !NoDup_ListNoDup. intros Hnd.
  destruct (cache_Set_cache now k v ttl w) as (c1 & Hc & Hout & Hc1).
  rewrite Hc. simpl. constructor; [exact Hout | exact (Hc1 Hnd)].
Qed.

Lemma cache_Get_keys_unique (now : Z) (k : string) (w : World) :
  keys_unique w -> keys_unique (snd (cache_Get now k w)).
Proof.
  unfold keys_unique, cache_Get. rewrite !NoDup_ListNoDup. intros Hnd.
  destruct (lookup_item k (cache (provider w))) as [it|] eqn:Hk; [|exact Hnd].
  destruct (isExpired now it); [exact Hnd|]. cbn [snd].
  change (cache (provider (set_cache ?c w))) with c.
  apply NoDup_move_front; [now apply (lookup_item_Key _ _ _ Hk) | exact Hnd].
Qed.

Lemma cache_Delete_keys_unique (k : string) (w : World) :
  keys_unique w -> keys_unique (cache_Delete E k w).
Proof.
  unfold keys_unique. rewrite !NoDup_ListNoDup, cache_Delete_cache.
  apply NoDup_remove_item.
Qed.

Lemma evict_keys_unique (reason : EvictionReason) (it : Item) (w : World) :
  keys_unique w -> keys_unique (evict E reason it w).
Proof.
  unfold keys_unique. rewrite !NoDup_ListNoDup, evict_cache.
  apply NoDup_remove_item.
Qed.

Lemma recoverEnoughSpaceIfNeeded_keys_unique (fuel : nat) (sz : Z) :
  forall w w',
    recoverEnoughSpaceIfNeeded E fuel sz w = Some w' ->
    keys_unique w -> keys_unique w'.
Proof.
  induction fuel as [|fuel IH]; intros w w' Hrun Hnd; simpl in Hrun;
    destruct (_ && _); try discriminate.
  - now injection Hrun as <-.
  - apply (IH _ _ Hrun). unfold cache_RangeBackwards.
    destruct (rev (cache (provider w))) as [|it l]; simpl; [exact Hnd|].
    now apply cache_Delete_keys_unique.
  - now injection Hrun as <-.
Qed.
End IndexOperations.

(** ** Delete, Get and the list of keys *)

(** X1.  A get that follows the delete of the same key is a miss, at any time
    and whatever the key held. *)
Theorem Delete_then_Get_misses (E : Deps) (t : Z) (key : string) (w : World) :
  fst (Get E t key (Delete E key w)) = None.
Proof.
  unfold Get, cache_Get, Delete. rewrite cache_Delete_cache.
  rewrite lookup_remove_item, String.eqb_refl. reflexivity.
Qed.

(** X2.  A delete takes the key, and no other key, off the list of keys; the
    entries of the other keys are the same as before. *)
Theorem Delete_removes_only_the_key
    (E : Deps) (key k : string) (w : World) :
  (In k (ListKeys (Delete E key w)) <-> k <> key /\ In k (ListKeys w))
  /\ (k <> key ->
      lookup_item k (cache (provider (Delete E key w)))
      = lookup_item k (cache (provider w))).
Proof.
  unfold ListKeys, Delete. rewrite cache_Delete_cache. split.
  - apply In_remove_item.
  - intros Hne. rewrite lookup_remove_item.
    destruct (String.eqb_spec key k); [congruence | reflexivity].
Qed.

Lemma Delete_removes_only_the_key_witness :
  (In "k1"%string (ListKeys (Delete demo "IDX_res" world_in_cwd))
   <-> "k1"%string <> "IDX_res"%string /\ In "k1"%string (ListKeys world_in_cwd))
  /\ ("k1"%string <> "IDX_res"%string ->
      lookup_item "k1" (cache (provider (Delete demo "IDX_res" world_in_cwd)))
      = lookup_item "k1" (cache (provider world_in_cwd))).
Proof. exact (Delete_removes_only_the_key demo "IDX_res" "k1" world_in_cwd). Defined.

(** The eviction hook on an entry whose value names a file. *)
Lemma OnEviction_file
    (E : Deps) (reason : EvictionReason) (item : Item) (data : bytes)
    (w : World) :
  Contains (string_of_bytes (Value item)) (MappingKeyPrefix E) = false ->
  disk w !! string_of_bytes (Value item) = Some (File data) ->
  OnEviction E reason item w
  = set_disk (delete (string_of_bytes (Value item)) (disk w))
      (log (Debugf_SizeDecreased (Z.of_nat (length data))
              (wrap64 (actualSize (provider w) - Z.of_nat (length data))))
         (set_actualSize
            (wrap64 (actualSize (provider w) - Z.of_nat (length data))) w)).
Proof.
  intros Hplain Hfile. unfold OnEviction, os_Stat, onEvict, os_Remove.
  rewrite Hplain, Hfile. simpl. now rewrite Hfile.
Qed.

(** X3.  The delete of an entry backed by a blob, the value of which does not
    hold the mapping prefix, takes the size of the file off the counter,
    removes the file and nothing else from the disk, and removes the entry. *)
Theorem Delete_blob_entry
    (E : Deps) (key : string) (item : Item) (data : bytes) (w : World) :
  lookup_item key (cache (provider w)) = Some item ->
  Contains (string_of_bytes (Value item)) (MappingKeyPrefix E) = false ->
  disk w !! string_of_bytes (Value item) = Some (File data) ->
  - 2 ^ 63 <= actualSize (provider w) - Z.of_nat (length data) ->
  actualSize (provider w) < 2 ^ 63 ->
  let w' := Delete E key w in
  actualSize (provider w') = actualSize (provider w) - Z.of_nat (length data)
  /\ disk w' = delete (string_of_bytes (Value item)) (disk w)
  /\ lookup_item key (cache (provider w')) = None.
Proof.
  intros Hitem Hplain Hfile Hlow Hhigh. cbv zeta.
  split; [|split].
  - unfold Delete, cache_Delete. rewrite Hitem. unfold evict.
    rewrite (OnEviction_file E _ item data) by assumption.
    simpl. apply wrap64_small. lia.
  - unfold Delete, cache_Delete. rewrite Hitem. unfold evict.
    now rewrite (OnEviction_file E _ item data) by assumption.
  - unfold Delete. rewrite cache_Delete_cache, lookup_remove_item.
    now rewrite String.eqb_refl.
Qed.

Lemma Delete_blob_entry_witness :
  let w' := Delete demo "k1" world_with_k1 in
  actualSize (provider w') = 8 - 8
  /\ disk w' = delete "/cache/k1"%string (disk world_with_k1)
  /\ lookup_item "k1" (cache (provider w')) = None.
Proof.
  apply (Delete_blob_entry demo "k1"
           (mkItem "k1" (bytes_of_string "/cache/k1") 60000 61000)
           (Byte.x04 :: payload 7) world_with_k1);
    try reflexivity; vm_compute; discriminate.
Defined.




(** X4.  After a plain set the key is the first of the list of keys and occurs
    nowhere else in it: a set never duplicates a key. *)
Theorem Set_lists_the_key_once
    (E : Deps) (now : Z) (key : string) (value : bytes) (duration : Z)
    (w : World) :
  exists rest,
    ListKeys (snd (Set_ E now key value duration w)) = key :: rest
    /\ ~ In key rest.
Proof.
  unfold ListKeys, Set_. cbn [snd].
  destruct (cache_Set_cache E now key value duration w) as (c1 & -> & Hout & _).
  exists (map Key c1). split; [reflexivity | exact Hout].
Qed.

(** ** Reset *)

Section ResetProperties.
Context (E : Deps).

Lemma fold_evict_cache (reason : EvictionReason) (l : list Item) :
  forall w,
    cache (provider (fold_left (fun w0 it => evict E reason it w0) l w))
    = fold_left (fun c it => remove_item (Key it) c) l (cache (provider w)).
Proof.
  induction l as [|a l IH]; intros w; simpl; [reflexivity|].
  now rewrite IH, evict_cache.
Qed.

Lemma fold_remove_all (l : list Item) :
  forall c,
    (forall it, In it c -> In (Key it) (map Key l)) ->
    fold_left (fun c0 it => remove_item (Key it) c0) l c = [].
Proof.
  induction l as [|a l IH]; intros c Hall; simpl.
  - destruct c as [|it c]; [reflexivity|]. destruct (Hall it). now left.
  - apply IH. intros it Hin. unfold remove_item in Hin.
    apply filter_In in Hin as [Hin Hkeep].
    destruct (Hall it Hin) as [Heq|Hrest]; [|exact Hrest].
    rewrite Heq, String.eqb_refl in Hkeep. discriminate.
Qed.

Lemma fold_evict_shrinks (reason : EvictionReason) (l : list Item) :
  forall w, shrinks w (fold_left (fun w0 it => evict E reason it w0) l w).
Proof.
  induction l as [|a l IH]; intros w; simpl; [apply shrinks_refl|].
  eapply shrinks_trans; [apply evict_shrinks | apply IH].
Qed.

(** The hook on an entry whose value names a directory: the directory goes
    when it is empty and stays otherwise. *)
Lemma OnEviction_disk_at_value
    (reason : EvictionReason) (it : Item) (w : World) :
  Contains (string_of_bytes (Value it)) (MappingKeyPrefix E) = false ->
  disk (OnEviction E reason it w) !! string_of_bytes (Value it) = None
  \/ exists r,
       disk (OnEviction E reason it w) !! string_of_bytes (Value it)
       = Some (Dir r).
Proof.
  intros Hplain. unfold OnEviction, os_Stat, onEvict, os_Remove.
  rewrite Hplain. simpl.
  destruct (disk w !! string_of_bytes (Value it)) as [[data|r]|] eqn:Hnode;
    simpl.
  - left. apply lookup_delete_eq.
  - destruct (dir_empty _ _); simpl.
    + left. apply lookup_delete_eq.
    + right. now exists r.
  - now left.
Qed.

(** After the eviction of an entry whose value does not hold the mapping
    prefix no file has the value as its path. *)
Lemma evict_removes_file (reason : EvictionReason) (it : Item) (w : World) :
  Contains (string_of_bytes (Value it)) (MappingKeyPrefix E) = false ->
  os_ReadFile (string_of_bytes (Value it)) (disk (evict E reason it w)) = None.
Proof.
  intros Hplain. unfold evict, os_ReadFile.
  destruct (OnEviction_disk_at_value reason it
              (set_cache (remove_item (Key it) (cache (provider w))) w) Hplain)
    as [->|[r ->]]; reflexivity.
Qed.

Lemma shrinks_no_file (w w' : World) (p : string) :
  shrinks w w' ->
  os_ReadFile p (disk w) = None -> os_ReadFile p (disk w') = None.
Proof.
  intros Hsh Hnone. unfold os_ReadFile in *.
  destruct (disk w' !! p) as [[data|r]|] eqn:Hfile; [|reflexivity..].
  apply (sh_disk _ _ Hsh) in Hfile. rewrite Hfile in Hnone. discriminate.
Qed.

Lemma fold_evict_removes_files (reason : EvictionReason) (l : list Item) :
  forall w it,
    In it l ->
    Contains (string_of_bytes (Value it)) (MappingKeyPrefix E) = false ->
    os_ReadFile (string_of_bytes (Value it))
      (disk (fold_left (fun w0 a => evict E reason a w0) l w))
    = None.
Proof.
  induction l as [|a l IH]; intros w it Hin Hplain; simpl; [destruct Hin|].
  destruct Hin as [->|Hin]; [|now apply IH].
  eapply shrinks_no_file; [apply fold_evict_shrinks|].
  now apply evict_removes_file.
Qed.
End ResetProperties.

Lemma Reset_index_empty (E : Deps) (w : World) :
  cache (provider (snd (Reset E w))) = [].
Proof.
  unfold Reset, cache_DeleteAll. cbn [snd].
  rewrite fold_evict_cache. apply fold_remove_all.
  intros it Hin. now apply in_map.
Qed.

(** X5.  A reset returns nil and leaves the index empty. The eviction hook
    runs for every entry: the file named by the value of an entry is gone from
    the disk afterwards, unless the value holds the mapping prefix; no file is
    created and the configuration stays. *)
Theorem Reset_empties_index_and_removes_blobs (E : Deps) (w : World) :
  fst (Reset E w) = None
  /\ cache (provider (snd (Reset E w))) = []
  /\ config (snd (Reset E w)) = config w
  /\ (forall item,
        In item (cache (provider w)) ->
        Contains (string_of_bytes (Value item)) (MappingKeyPrefix E) = false ->
        os_ReadFile (string_of_bytes (Value item)) (disk (snd (Reset E w)))
        = None)
  /\ (forall p data,
        disk (snd (Reset E w)) !! p = Some data -> disk w !! p = Some data).
Proof.
  unfold Reset, cache_DeleteAll. cbn [fst snd].
  pose proof (fold_evict_shrinks E EvictionReasonDeleted (cache (provider w)) w)
    as Hsh.
  split; [reflexivity|]. split; [|split; [|split]].
  - rewrite fold_evict_cache. apply fold_remove_all.
    intros it Hin. now apply in_map.
  - apply (sh_config _ _ Hsh).
  - intros item Hin Hplain. now apply fold_evict_removes_files.
  - apply (sh_disk _ _ Hsh).
Qed.

Lemma Reset_empties_index_and_removes_blobs_witness :
  fst (Reset demo world_in_cwd) = None
  /\ cache (provider (snd (Reset demo world_in_cwd))) = []
  /\ os_ReadFile "k1" (disk (snd (Reset demo world_in_cwd))) = None.
Proof.
  destruct (Reset_empties_index_and_removes_blobs demo world_in_cwd)
    as (Hnil & Hempty & _ & Hfiles & _).
  split; [exact Hnil|]. split; [exact Hempty|].
  apply (Hfiles (mkItem "k1" (bytes_of_string "k1") 60000 61000)).
  - right. now left.
  - reflexivity.
Defined.

(** ** DeleteMany *)

Section DeleteManyProperties.
Context (E : Deps).

Lemma Delete_lookup (key k : string) (w : World) :
  lookup_item k (cache (provider (Delete E key w)))
  = if String.eqb key k then None else lookup_item k (cache (provider w)).
Proof. unfold Delete. now rewrite cache_Delete_cache, lookup_remove_item. Qed.

Lemma range_delete_matching_lookup (rgKey : string -> bool) (k : string)
    (l : list Item) :
  forall w,
    lookup_item k (cache (provider (range_visit (delete_matching E rgKey) l w)))
    = if rgKey k then
        match lookup_item k l with
        | Some _ => None
        | None => lookup_item k (cache (provider w))
        end
      else lookup_item k (cache (provider w)).
Proof.
  induction l as [|a l IH]; intros w.
  - simpl. now destruct (rgKey k).
  - cbn [range_visit delete_matching]. rewrite IH, lookup_item_head.
    destruct (String.eqb_spec (Key a) k) as [Hk|Hk].
    + rewrite Hk. destruct (rgKey k) eqn:Hmatch; [|reflexivity].
      rewrite Delete_lookup, String.eqb_refl. now destruct (lookup_item k l).
    + destruct (rgKey (Key a)); [|reflexivity].
      rewrite Delete_lookup.
      destruct (String.eqb_spec (Key a) k); [contradiction | reflexivity].
Qed.

Lemma range_delete_matching_shrinks (rgKey : string -> bool) (l : list Item) :
  forall w, shrinks w (range_visit (delete_matching E rgKey) l w).
Proof.
  induction l as [|a l IH]; intros w; [apply shrinks_refl|].
  cbn [range_visit delete_matching].
  eapply shrinks_trans; [|apply IH].
  destruct (rgKey (Key a)); [apply cache_Delete_shrinks | apply shrinks_refl].
Qed.

Lemma range_delete_matching_keys_unique (rgKey : string -> bool)
    (l : list Item) :
  forall w,
    keys_unique w -> keys_unique (range_visit (delete_matching E rgKey) l w).
Proof.
  induction l as [|a l IH]; intros w Hnd; [exact Hnd|].
  cbn [range_visit delete_matching]. apply IH.
  destruct (rgKey (Key a)); [now apply cache_Delete_keys_unique | exact Hnd].
Qed.
End DeleteManyProperties.

(** X6.  A bulk delete leaves alone the entry of every key the expression
    does not match; it creates no file and no entry.  With an expression that
    does not compile the world is left as it is. *)
Theorem DeleteMany_keeps_unmatched_keys
    (compile : string -> option (string -> bool)) (E : Deps)
    (pattern k : string) (item : Item) (w : World) :
  lookup_item k (cache (provider w)) = Some item ->
  match compile pattern with
  | Some rgKey => rgKey k = false
  | None => True
  end ->
  let w' := DeleteMany compile E pattern w in
  lookup_item k (cache (provider w')) = Some item
  /\ (forall k',
        lookup_item k' (cache (provider w')) = None
        \/ lookup_item k' (cache (provider w'))
           = lookup_item k' (cache (provider w)))
  /\ (forall p data, disk w' !! p = Some data -> disk w !! p = Some data)
  /\ config w' = config w
  /\ (compile pattern = None -> w' = w).
Proof.
  intros Hitem Hunmatched. cbv zeta. unfold DeleteMany, cache_Range.
  destruct (compile pattern) as [rgKey|]; [|auto 6].
  pose proof (range_delete_matching_shrinks E rgKey (cache (provider w)) w)
    as Hsh.
  split; [|split; [|split; [|split]]].
  - now rewrite range_delete_matching_lookup, Hunmatched.
  - apply (sh_cache _ _ Hsh).
  - apply (sh_disk _ _ Hsh).
  - apply (sh_config _ _ Hsh).
  - discriminate.
Qed.

Lemma DeleteMany_keeps_unmatched_keys_witness :
  lookup_item "k1" (cache (provider (DeleteMany compile_prefix demo "IDX_" world_in_cwd)))
  = Some (mkItem "k1" (bytes_of_string "k1") 60000 61000)
  /\ DeleteMany compile_prefix demo "[" world_in_cwd = world_in_cwd.
Proof.
  split.
  - apply (DeleteMany_keeps_unmatched_keys compile_prefix demo "IDX_" "k1"
             (mkItem "k1" (bytes_of_string "k1") 60000 61000) world_in_cwd);
      reflexivity.
  - apply (DeleteMany_keeps_unmatched_keys compile_prefix demo "[" "k1"
             (mkItem "k1" (bytes_of_string "k1") 60000 61000) world_in_cwd);
      try reflexivity; exact I.
Defined.

(** ** MapKeys *)

Lemma drop_bytes_app (p s : string) :
  drop_bytes (String.length p) (p ++ s) = s.
Proof. induction p as [|c p IH]; simpl; [now destruct s | exact IH]. Qed.

Lemma prefix_split (p s : string) :
  String.prefix p s = true -> s = (p ++ drop_bytes (String.length p) s)%string.
Proof.
  revert s. induction p as [|c p IH]; intros s Hp.
  - now destruct s.
  - destruct s as [|d s]; simpl in Hp; [discriminate|].
    destruct (ascii_dec c d) as [->|]; [|discriminate].
    change (String d s = String d (p ++ drop_bytes (String.length p) s)).
    now rewrite <- (IH s Hp).
Qed.

Lemma app_inv_head_string (p s1 s2 : string) :
  (p ++ s1)%string = (p ++ s2)%string -> s1 = s2.
Proof. induction p as [|c p IH]; simpl; intros H; [exact H|]. injection H. auto. Qed.

Lemma MapKeys_fold (prefix k : string) (l : list Item) :
  forall keys : gmap string string,
    List.NoDup (map Key l) ->
    fold_left
      (fun (keys0 : gmap string string) (item : Item) =>
         if HasPrefix (Key item) prefix then
           <[fst (CutPrefix (Key item) prefix) := string_of_bytes (Value item)]> keys0
         else keys0)
      l keys !! k
    = match lookup_item (prefix ++ k) l with
      | Some item => Some (string_of_bytes (Value item))
      | None => keys !! k
      end.
Proof.
  induction l as [|a l IH]; intros keys Hnd; [reflexivity|].
  inversion Hnd as [|? ? Hout Hrest]; subst.
  cbn [fold_left]. rewrite (IH _ Hrest), lookup_item_head.
  unfold CutPrefix, HasPrefix.
  destruct (String.eqb_spec (Key a) (prefix ++ k)) as [Hk|Hk].
  - rewrite Hk in Hout. apply lookup_item_None_iff in Hout. rewrite Hout.
    rewrite Hk, prefix_app. cbn [fst]. rewrite drop_bytes_app.
    apply lookup_insert_eq.
  - destruct (lookup_item (prefix ++ k) l); [reflexivity|].
    destruct (String.prefix prefix (Key a)) eqn:Hp; [|reflexivity].
    cbn [fst]. apply lookup_insert_ne. intros Heq. apply Hk.
    rewrite (prefix_split _ _ Hp). now rewrite Heq.
Qed.

(** X7.  The map of keys holds the suffix [k] exactly when the index holds the
    key [prefix ++ k], and maps it to the value of that entry read as a
    string, the index having pairwise distinct keys. *)
Theorem MapKeys_lookup (prefix k : string) (w : World) :
  keys_unique w ->
  MapKeys prefix w !! k
  = (fun item => string_of_bytes (Value item))
      <$> lookup_item (prefix ++ k) (cache (provider w)).
Proof.
  unfold keys_unique, MapKeys. rewrite NoDup_ListNoDup. intros Hnd.
  rewrite (MapKeys_fold prefix k _ ∅ Hnd).
  destruct (lookup_item _ _); [reflexivity | apply lookup_empty].
Qed.

Lemma MapKeys_lookup_witness :
  MapKeys "IDX_" world_in_cwd !! "res"%string = Some "k1;"%string
  /\ MapKeys "IDX_" world_in_cwd !! "k1"%string = None.
Proof.
  split.
  - rewrite (MapKeys_lookup "IDX_" "res" world_in_cwd); [reflexivity|].
    unfold keys_unique. apply NoDup_ListNoDup. simpl.
    repeat constructor; simpl; intuition discriminate.
  - rewrite (MapKeys_lookup "IDX_" "k1" world_in_cwd); [reflexivity|].
    unfold keys_unique. apply NoDup_ListNoDup. simpl.
    repeat constructor; simpl; intuition discriminate.
Defined.

(** ** The keys of the index stay pairwise distinct *)

Section KeysUnique.
Context (E : Deps).

Lemma Get_cache (t : Z) (key : string) (w : World) :
  cache (provider (snd (Get E t key w)))
  = cache (provider (snd (cache_Get t key w))).
Proof.
  unfold Get. destruct (cache_Get t key w) as [[result|] w1]; [|reflexivity].
  cbn [snd]. destruct (os_ReadFile _ _); [|reflexivity].
  repeat match goal with
         | |- context [if ?b then _ else _] => destruct b
         | |- context [match ?x with _ => _ end] => destruct x
         end; reflexivity.
Qed.

Lemma encode_cache (variedKey : string) (value : bytes) (w : World) :
  cache (provider (snd (encode E variedKey value w))) = cache (provider w).
Proof.
  unfold encode.
  repeat match goal with
         | |- context [if ?b then _ else _] => destruct b
         | |- context [match ?x with _ => _ end] => destruct x
         end; reflexivity.
Qed.

Lemma load_mapping_keys_unique (now : Z) (k : string) (w : World) :
  keys_unique w -> keys_unique (snd (load_mapping now k w)).
Proof.
  intros Hnd. pose proof (cache_Get_keys_unique now k w Hnd) as Hget.
  unfold load_mapping. now destruct (cache_Get now k w) as [[it|] w'].
Qed.

Lemma update_mapping_keys_unique (now now2 : Z) (baseKey variedKey : string)
    (variedHeaders : Header) (etag : string) (duration : Z)
    (realKey : string) (w : World) :
  keys_unique w ->
  keys_unique
    (snd (update_mapping E now now2 baseKey variedKey variedHeaders etag
            duration realKey w)).
Proof.
  intros Hnd. unfold update_mapping.
  pose proof (load_mapping_keys_unique now (MappingKeyPrefix E ++ baseKey) w Hnd)
    as Hload.
  destruct (load_mapping now (MappingKeyPrefix E ++ baseKey) w) as [item w1].
  cbn [snd] in Hload.
  destruct (MappingUpdater _ _ _ _ _ _ _ _ _); [|exact Hload].
  destruct (negativeNow E now2); [|exact Hload].
  cbn [snd]. now apply cache_Set_keys_unique.
Qed.

Lemma SetMultiLevel_keys_unique (fuel : nat) (now now2 : Z)
    (baseKey variedKey : string) (value : bytes) (variedHeaders : Header)
    (etag : string) (duration : Z) (realKey : string)
    (w : World) (err : option error) (w' : World) :
  SetMultiLevel E fuel now now2 baseKey variedKey value variedHeaders etag
    duration realKey w = Some (err, w') ->
  keys_unique w -> keys_unique w'.
Proof.
  unfold SetMultiLevel. intros Hrun Hnd.
  pose proof (encode_cache variedKey value w) as Hencode.
  destruct (encode E variedKey value w) as [[compressed|e] w0]; cbn [snd] in *.
  - assert (Hnd0 : keys_unique w0) by (unfold keys_unique; now rewrite Hencode).
    destruct (recoverEnoughSpaceIfNeeded E fuel _ w0) as [w1|] eqn:Hreclaim;
      [|discriminate].
    pose proof (recoverEnoughSpaceIfNeeded_keys_unique E _ _ _ _ Hreclaim Hnd0)
      as Hnd1.
    destruct (os_WriteFile E _ compressed (disk w1)) as [d|].
    + injection Hrun as Hrun.
      pose proof (update_mapping_keys_unique now now2 baseKey variedKey
                    variedHeaders etag duration realKey
                    (cache_Set E now variedKey
                       (bytes_of_string (joinedFP E variedKey w1)) duration
                       (set_disk d w1))) as Hupdate.
      rewrite Hrun in Hupdate. apply Hupdate.
      now apply cache_Set_keys_unique.
    + injection Hrun as _ <-. exact Hnd1.
  - injection Hrun as _ <-. unfold keys_unique. now rewrite Hencode.
Qed.
End KeysUnique.

(** X8.  Every operation of the provider keeps the keys of the index pairwise
    distinct: the plain set, the get, the delete, the bulk delete, the reset
    and, when it returns, the multi-level write. *)
Theorem provider_keeps_keys_unique
    (compile : string -> option (string -> bool)) (E : Deps)
    (fuel : nat) (now now2 : Z) (key baseKey : string) (value : bytes)
    (variedHeaders : Header) (etag : string) (duration : Z) (realKey : string)
    (w : World) :
  keys_unique w ->
  keys_unique (snd (Set_ E now key value duration w))
  /\ keys_unique (snd (Get E now key w))
  /\ keys_unique (Delete E key w)
  /\ keys_unique (DeleteMany compile E key w)
  /\ keys_unique (snd (Reset E w))
  /\ match
       SetMultiLevel E fuel now now2 baseKey key value variedHeaders etag
         duration realKey w
     with
     | Some (_, w') => keys_unique w'
     | None => True
     end.
Proof.
  intros Hnd. repeat split.
  - unfold Set_. cbn [snd]. now apply cache_Set_keys_unique.
  - unfold keys_unique. rewrite Get_cache.
    now apply cache_Get_keys_unique.
  - now apply cache_Delete_keys_unique.
  - unfold DeleteMany. destruct (compile key); [|exact Hnd].
    now apply range_delete_matching_keys_unique.
  - unfold keys_unique.
    rewrite Reset_index_empty. constructor.
  - destruct (SetMultiLevel E fuel now now2 baseKey key value variedHeaders etag
                duration realKey w) as [[err w']|] eqn:Hrun; [|exact I].
    now apply (SetMultiLevel_keys_unique E _ _ _ _ _ _ _ _ _ _ _ _ _ Hrun).
Qed.

Lemma provider_keeps_keys_unique_witness :
  keys_unique (snd (Set_ demo 5000 "k2" (payload 7) 60000 world_in_cwd))
  /\ keys_unique (snd (Get demo 5000 "k2" world_in_cwd))
  /\ keys_unique (Delete demo "k2" world_in_cwd)
  /\ keys_unique (DeleteMany compile_prefix demo "k2" world_in_cwd)
  /\ keys_unique (snd (Reset demo world_in_cwd))
  /\ match
       SetMultiLevel demo 1 5000 6000 "res" "k2" (payload 7) [] "etag" 60000
         "res" world_in_cwd
     with
     | Some (_, w') => keys_unique w'
     | None => True
     end.
Proof.
  apply (provider_keeps_keys_unique compile_prefix demo 1 5000 6000 "k2" "res"
           (payload 7) [] "etag" 60000 "res" world_in_cwd).
  unfold keys_unique. apply NoDup_ListNoDup. simpl.
  repeat constructor; simpl; intuition discriminate.
Defined.

(** ** More on the quota reclamation *)

(** X9.  One pass of the reclamation removes from the index the entry whose
    key is spelled by the value of the least recently used entry, and no
    other: the least recently used entry itself stays unless its key is its
    value read as a string. *)
Theorem reclamation_pass_deletes_by_value (E : Deps) (w : World) (lru : Item) :
  last (cache (provider w)) = Some lru ->
  let w' := cache_RangeBackwards (delete_visited E) w in
  cache (provider w')
  = remove_item (string_of_bytes (Value lru)) (cache (provider w))
  /\ (Key lru <> string_of_bytes (Value lru) ->
      lookup_item (Key lru) (cache (provider w'))
      = lookup_item (Key lru) (cache (provider w))).
Proof.
  intros Hlast. cbv zeta.
  assert (Hcache : cache (provider (cache_RangeBackwards (delete_visited E) w))
                   = remove_item (string_of_bytes (Value lru))
                       (cache (provider w))).
  { unfold cache_RangeBackwards.
    apply last_Some in Hlast as [l Hl]. rewrite Hl, rev_unit.
    cbn [range_visit delete_visited]. rewrite cache_Delete_cache.
    now rewrite Hl. }
  split; [exact Hcache|].
  intros Hne. rewrite Hcache, lookup_remove_item.
  destruct (String.eqb_spec (string_of_bytes (Value lru)) (Key lru));
    [congruence | reflexivity].
Qed.

Lemma reclamation_pass_deletes_by_value_witness :
  let w' := cache_RangeBackwards (delete_visited demo) world_with_k1 in
  cache (provider w')
  = remove_item "/cache/k1" (cache (provider world_with_k1))
  /\ ("k1"%string <> "/cache/k1"%string ->
      lookup_item "k1" (cache (provider w'))
      = lookup_item "k1" (cache (provider world_with_k1))).
Proof.
  apply (reclamation_pass_deletes_by_value demo world_with_k1
           (mkItem "k1" (bytes_of_string "/cache/k1") 60000 61000)).
  reflexivity.
Defined.

Lemma encode_provider (E : Deps) (variedKey : string) (value : bytes)
    (w : World) :
  provider (snd (encode E variedKey value w)) = provider w
  /\ disk (snd (encode E variedKey value w)) = disk w.
Proof.
  unfold encode.
  repeat match goal with
         | |- context [if ?b then _ else _] => destruct b
         | |- context [match ?x with _ => _ end] => destruct x
         end; auto.
Qed.

Lemma recoverEnoughSpaceIfNeeded_not_needed
    (E : Deps) (fuel : nat) (sz : Z) (w : World) :
  directorySize (provider w) <= -1
  \/ wrap64 (actualSize (provider w) + sz) <= directorySize (provider w) ->
  recoverEnoughSpaceIfNeeded E fuel sz w = Some w.
Proof.
  intros Hfits.
  assert (Hcond : (directorySize (provider w) >? -1)
                  && (wrap64 (actualSize (provider w) + sz)
                      >? directorySize (provider w)) = false).
  { apply andb_false_iff. destruct Hfits; [left | right]; lia. }
  destruct fuel; simpl; now rewrite Hcond.
Qed.

(** X10.  With no directory budget configured the multi-level write returns,
    for any fuel, with the result of a call with no fuel at all: its
    reclamation step returns at once. *)
Theorem SetMultiLevel_returns_without_budget
    (E : Deps) (fuel : nat) (now now2 : Z) (baseKey variedKey : string)
    (value : bytes) (variedHeaders : Header) (etag : string) (duration : Z)
    (realKey : string) (w : World) :
  directorySize (provider w) <= -1 ->
  exists err w',
    SetMultiLevel E fuel now now2 baseKey variedKey value variedHeaders etag
      duration realKey w = Some (err, w')
    /\ SetMultiLevel E 0 now now2 baseKey variedKey value variedHeaders etag
         duration realKey w = Some (err, w').
Proof.
  intros Hnone. unfold SetMultiLevel.
  destruct (encode_provider E variedKey value w) as (Hp & _).
  destruct (encode E variedKey value w) as [[compressed|e] w0]; cbn [snd] in Hp.
  - rewrite !recoverEnoughSpaceIfNeeded_not_needed
      by (left; now rewrite Hp).
    destruct (os_WriteFile E _ compressed (disk w0)); eauto.
    destruct (update_mapping E now now2 baseKey variedKey variedHeaders etag
                duration realKey _) as [err w']. eauto.
  - eauto.
Qed.

Lemma SetMultiLevel_returns_without_budget_witness :
  exists err w',
    SetMultiLevel demo 7 1000 2000 "res" "k1" (payload 10) [] "etag" 60000
      "res" (fresh_world (-1) "zstd") = Some (err, w')
    /\ SetMultiLevel demo 0 1000 2000 "res" "k1" (payload 10) [] "etag" 60000
         "res" (fresh_world (-1) "zstd") = Some (err, w').
Proof.
  apply (SetMultiLevel_returns_without_budget demo 7 1000 2000 "res" "k1"
           (payload 10) [] "etag" 60000 "res" (fresh_world (-1) "zstd")).
  vm_compute. discriminate.
Defined.

(** X11.  On an empty index with a budget configured the multi-level write
    returns exactly when the compressed payload fits the budget next to the
    counter: if it fits the call returns for any fuel, and if it does not the
    call returns for no fuel. *)
Theorem SetMultiLevel_on_empty_index
    (E : Deps) (now now2 : Z) (baseKey variedKey : string)
    (value : bytes) (variedHeaders : Header) (etag : string) (duration : Z)
    (realKey : string) (w : World) (compressed : bytes) (w0 : World) :
  cache (provider w) = [] ->
  directorySize (provider w) > -1 ->
  encode E variedKey value w = (Ok compressed, w0) ->
  (wrap64 (actualSize (provider w) + Z.of_nat (length compressed))
   <= directorySize (provider w) ->
   forall fuel, exists err w',
     SetMultiLevel E fuel now now2 baseKey variedKey value variedHeaders etag
       duration realKey w = Some (err, w'))
  /\ (wrap64 (actualSize (provider w) + Z.of_nat (length compressed))
      > directorySize (provider w) ->
      forall fuel,
        SetMultiLevel E fuel now now2 baseKey variedKey value variedHeaders
          etag duration realKey w = None).
Proof.
  intros Hempty Hbudget Hencode.
  destruct (encode_provider E variedKey value w) as (Hp & _).
  rewrite Hencode in Hp. cbn [snd] in Hp.
  split; intros Hsize fuel; unfold SetMultiLevel; rewrite Hencode.
  - rewrite recoverEnoughSpaceIfNeeded_not_needed by (right; now rewrite Hp).
    destruct (os_WriteFile E _ compressed (disk w0)); eauto.
    destruct (update_mapping E now now2 baseKey variedKey variedHeaders etag
                duration realKey _) as [err w']. eauto.
  - rewrite recoverEnoughSpaceIfNeeded_stuck; [reflexivity | | | ].
    + now rewrite Hp.
    + now rewrite Hp.
    + apply reclaim_step_miss. now rewrite Hp, Hempty.
Qed.

Lemma SetMultiLevel_on_empty_index_witness :
  (forall fuel, exists err w',
      SetMultiLevel demo fuel 1000 2000 "res" "k1" (payload 9) [] "etag" 60000
        "res" (fresh_world 10 "lz4") = Some (err, w'))
  /\ (forall fuel,
        SetMultiLevel demo fuel 1000 2000 "res" "k1" (payload 10) [] "etag"
          60000 "res" (fresh_world 10 "lz4") = None).
Proof.
  split.
  - apply (SetMultiLevel_on_empty_index demo 1000 2000 "res" "k1" (payload 9)
             [] "etag" 60000 "res" (fresh_world 10 "lz4")
             (Byte.x04 :: payload 9) (fresh_world 10 "lz4"));
      try reflexivity; vm_compute; discriminate.
  - apply (SetMultiLevel_on_empty_index demo 1000 2000 "res" "k1" (payload 10)
             [] "etag" 60000 "res" (fresh_world 10 "lz4")
             (Byte.x04 :: payload 10) (fresh_world 10 "lz4"));
      try reflexivity; vm_compute; reflexivity.
Defined.

(** ** Reading back what the multi-level write stored *)

Section ReadBack.
Context (E : Deps).

(** Without an entry limit a set evicts nothing. *)
Lemma cache_Set_unbounded (now : Z) (k : string) (v : bytes) (ttl : Z)
    (w : World) :
  uint64_of_int (size (provider w)) = 0 ->
  disk (cache_Set E now k v ttl w) = disk w
  /\ forall k', k' <> k ->
       lookup_item k' (cache (provider (cache_Set E now k v ttl w)))
       = lookup_item k' (cache (provider w)).
Proof.
  intros Hsize. unfold cache_Set.
  assert (Hroom : make_room E w = w).
  { unfold make_room. now rewrite Hsize. }
  destruct (lookup_item k (cache (provider w))) eqn:Hk.
  - destruct (OnInsertion_frame E (mkItem k v ttl (now + ttl))
                (set_cache (mkItem k v ttl (now + ttl)
                            :: remove_item k (cache (provider w))) w))
      as (_ & -> & ->).
    split; [reflexivity|]. intros k' Hne. cbn [set_cache cache provider].
    rewrite lookup_item_head, lookup_remove_item. cbn [Key].
    destruct (String.eqb_spec k k'); [congruence | reflexivity].
  - rewrite Hroom.
    destruct (OnInsertion_frame E (mkItem k v ttl (now + ttl))
                (set_cache (mkItem k v ttl (now + ttl) :: cache (provider w)) w))
      as (_ & -> & ->).
    split; [reflexivity|]. intros k' Hne. cbn [set_cache cache provider].
    rewrite lookup_item_head. cbn [Key].
    destruct (String.eqb_spec k k'); [congruence | reflexivity].
Qed.

Lemma config_size (w w' : World) :
  config w' = config w -> size (provider w') = size (provider w).
Proof. unfold config. intros H. now injection H. Qed.

Lemma config_path (w w' : World) :
  config w' = config w -> path (provider w') = path (provider w).
Proof. unfold config. intros H. now injection H. Qed.

Lemma config_compression (w w' : World) :
  config w' = config w -> compression (provider w') = compression (provider w).
Proof. unfold config. intros H. now injection H. Qed.

(** A get of a live entry whose value names a file returns the bytes of the
    file put through the decoder of the configured method. *)
Lemma Get_of_blob (t : Z) (key : string) (it : Item) (data : bytes) (w : World) :
  lookup_item key (cache (provider w)) = Some it ->
  isExpired t it = false ->
  disk w !! string_of_bytes (Value it) = Some (File data) ->
  fst (Get E t key w) = decode E (compression (provider w)) data.
Proof.
  intros Hit Hlive Hfile. unfold Get, cache_Get. rewrite Hit, Hlive.
  unfold os_ReadFile. change (disk (set_cache _ w)) with (disk w).
  rewrite Hfile. unfold decode.
  change (compression (provider (set_cache _ w)))
    with (compression (provider w)).
  destruct (String.eqb (compression (provider w)) "lz4").
  { now destruct (lz4_ReadAll E data). }
  destruct (String.eqb (compression (provider w)) "zstd").
  { destruct (zstd_NewReader E data); [reflexivity|].
    now destruct (zstd_ReadAll E data). }
  now destruct (String.eqb (compression (provider w)) "").
Qed.

(** Without an entry limit, once the reclamation has returned and the file is
    written, the multi-level write returns and leaves the entry of the varied
    key, with the path of the blob as its value, and the blob on disk. *)
Lemma SetMultiLevel_stored (fuel : nat) (now now2 : Z)
    (baseKey variedKey : string) (value : bytes) (variedHeaders : Header)
    (etag : string) (duration : Z) (realKey : string) (w : World)
    (compressed : bytes) (w0 w1 : World) :
  uint64_of_int (size (provider w)) = 0 ->
  variedKey <> (MappingKeyPrefix E ++ baseKey)%string ->
  encode E variedKey value w = (Ok compressed, w0) ->
  recoverEnoughSpaceIfNeeded E fuel (Z.of_nat (length compressed)) w0 = Some w1 ->
  writable E (joinedFP E variedKey w) = true ->
  exists err w',
    SetMultiLevel E fuel now now2 baseKey variedKey value variedHeaders etag
      duration realKey w = Some (err, w')
    /\ lookup_item variedKey (cache (provider w'))
       = Some (mkItem variedKey (bytes_of_string (joinedFP E variedKey w))
                 duration (now + duration))
    /\ disk w' !! joinedFP E variedKey w = Some (File compressed)
    /\ config w' = config w.
Proof.
  intros Hsize Hkeys Hencode Hreclaim Hwritable.
  pose proof (encode_frame E variedKey value w) as Hsh0.
  rewrite Hencode in Hsh0. cbn [snd] in Hsh0.
  pose proof (recoverEnoughSpaceIfNeeded_shrinks E _ _ _ _ Hreclaim) as Hsh1.
  pose proof (sh_config _ _ (shrinks_trans _ _ _ Hsh0 Hsh1)) as Hcfg1.
  assert (Hfp : joinedFP E variedKey w1 = joinedFP E variedKey w).
  { unfold joinedFP. now rewrite (config_path _ _ Hcfg1). }
  unfold SetMultiLevel. rewrite Hencode, Hreclaim, Hfp.
  unfold os_WriteFile. rewrite Hwritable.
  set (fp := joinedFP E variedKey w) in *.
  set (w1d := set_disk (<[fp := File compressed]> (disk w1)) w1).
  assert (Hsize1 : uint64_of_int (size (provider w1d)) = 0).
  { subst w1d. simpl. now rewrite (config_size _ _ Hcfg1). }
  destruct (cache_Set_frame E now variedKey (bytes_of_string fp) duration w1d)
    as (Hcfg2 & _ & Hlook2 & _ & _).
  destruct (cache_Set_unbounded now variedKey (bytes_of_string fp) duration w1d
              Hsize1) as (Hdisk2 & _).
  set (w2 := cache_Set E now variedKey (bytes_of_string fp) duration w1d) in *.
  unfold update_mapping.
  destruct (load_mapping_frame now (MappingKeyPrefix E ++ baseKey) w2)
    as (Hcfg3 & Hdisk3 & _ & Hlook3).
  destruct (load_mapping now (MappingKeyPrefix E ++ baseKey) w2) as [item w3].
  cbn [snd] in *.
  assert (Hfile3 : disk w3 !! fp = Some (File compressed)).
  { rewrite Hdisk3, Hdisk2. subst w1d. simpl. apply lookup_insert_eq. }
  assert (Hcfg : config w3 = config w).
  { rewrite Hcfg3, Hcfg2. subst w1d. exact Hcfg1. }
  destruct (MappingUpdater _ _ _ _ _ _ _ _ _) as [val|e].
  - rewrite negativeNow_value.
    set (w4 := log (Debugf_StoreMapping variedKey) w3).
    set (ttl := - (Nanosecond now2 * 2 * 1000000000)).
    assert (Hsize4 : uint64_of_int (size (provider w4)) = 0).
    { subst w4. simpl. rewrite (config_size _ _ Hcfg).
      exact Hsize. }
    destruct (cache_Set_frame E now2 (MappingKeyPrefix E ++ baseKey) val ttl w4)
      as (Hcfg5 & _).
    destruct (cache_Set_unbounded now2 (MappingKeyPrefix E ++ baseKey) val ttl
                w4 Hsize4) as (Hdisk5 & Hlook5).
    eexists _, _. split; [reflexivity|]. split; [|split].
    + rewrite Hlook5 by exact Hkeys. subst w4. simpl.
      now rewrite Hlook3.
    + rewrite Hdisk5. subst w4. exact Hfile3.
    + rewrite Hcfg5. subst w4. exact Hcfg.
  - eexists _, _. split; [reflexivity|]. split; [|split].
    + now rewrite Hlook3.
    + exact Hfile3.
    + exact Hcfg.
Qed.

(** The get that follows returns the stored bytes put through the decoder of
    the configured method. *)
Lemma SetMultiLevel_then_Get_decodes (fuel : nat) (now now2 t : Z)
    (baseKey variedKey : string) (value : bytes) (variedHeaders : Header)
    (etag : string) (duration : Z) (realKey : string) (w : World)
    (compressed : bytes) (w0 w1 : World) :
  uint64_of_int (size (provider w)) = 0 ->
  variedKey <> (MappingKeyPrefix E ++ baseKey)%string ->
  encode E variedKey value w = (Ok compressed, w0) ->
  recoverEnoughSpaceIfNeeded E fuel (Z.of_nat (length compressed)) w0 = Some w1 ->
  writable E (joinedFP E variedKey w) = true ->
  duration > 0 ->
  now <= t <= now + duration ->
  exists err w',
    SetMultiLevel E fuel now now2 baseKey variedKey value variedHeaders etag
      duration realKey w = Some (err, w')
    /\ fst (Get E t variedKey w') = decode E (compression (provider w)) compressed.
Proof.
  intros Hsize Hkeys Hencode Hreclaim Hwritable Hduration Ht.
  destruct (SetMultiLevel_stored fuel now now2 baseKey variedKey value
              variedHeaders etag duration realKey w compressed w0 w1
              Hsize Hkeys Hencode Hreclaim Hwritable)
    as (err & w' & Hrun & Hlook & Hfile & Hcfg).
  exists err, w'. split; [exact Hrun|].
  rewrite <- (config_compression _ _ Hcfg).
  apply (Get_of_blob t variedKey _ compressed w' Hlook).
  - unfold isExpired. cbn [TTL expiresAt].
    apply orb_false_iff. split; [apply Z.leb_gt | apply Z.ltb_ge]; lia.
  - cbn [Value]. now rewrite string_of_bytes_of_string.
Qed.
End ReadBack.

Lemma encode_with_lz4 (E : Deps) (variedKey : string) (value compressed : bytes)
    (w : World) :
  compression (provider w) = "lz4"%string \/ compression (provider w) = ""%string ->
  lz4_ReadFrom E value = Ok compressed ->
  encode E variedKey value w = (Ok compressed, w).
Proof.
  intros Hmethod Hframe. unfold encode.
  destruct Hmethod as [-> | ->]; cbn; now rewrite Hframe.
Qed.

Lemma encode_unsupported (E : Deps) (variedKey : string) (value : bytes)
    (w : World) :
  supported (compression (provider w)) = false ->
  encode E variedKey value w
  = (Ok value, log (Warnf_UnknownCompression (compression (provider w))) w).
Proof.
  unfold supported, encode. intros Hunsupported.
  apply orb_false_iff in Hunsupported as [Hrest Hnone].
  apply orb_false_iff in Hrest as [Hzstd Hlz4].
  now rewrite Hzstd, Hlz4, Hnone.
Qed.

(** X12.  With the empty method configured, which is the default, the
    multi-level write compresses with lz4 and the get does not decompress:
    without an entry limit, the get of the varied key before its TTL has run
    out returns the lz4 frame the write stored, not the payload. *)
Theorem SetMultiLevel_then_Get_empty_method
    (E : Deps) (fuel : nat) (now now2 t : Z) (baseKey variedKey : string)
    (value : bytes) (variedHeaders : Header) (etag : string) (duration : Z)
    (realKey : string) (w w1 : World) (compressed : bytes) :
  compression (provider w) = ""%string ->
  lz4_ReadFrom E value = Ok compressed ->
  uint64_of_int (size (provider w)) = 0 ->
  variedKey <> (MappingKeyPrefix E ++ baseKey)%string ->
  recoverEnoughSpaceIfNeeded E fuel (Z.of_nat (length compressed)) w = Some w1 ->
  writable E (joinedFP E variedKey w) = true ->
  duration > 0 ->
  now <= t <= now + duration ->
  exists err w',
    SetMultiLevel E fuel now now2 baseKey variedKey value variedHeaders etag
      duration realKey w = Some (err, w')
    /\ fst (Get E t variedKey w') = Some compressed.
Proof.
  intros Hmethod Hframe Hsize Hkeys Hreclaim Hwritable Hduration Ht.
  destruct (SetMultiLevel_then_Get_decodes E fuel now now2 t baseKey variedKey
              value variedHeaders etag duration realKey w compressed w w1)
    as (err & w' & Hrun & Hget); try assumption.
  - apply encode_with_lz4; [now right | exact Hframe].
  - exists err, w'. split; [exact Hrun|].
    rewrite Hget, Hmethod. reflexivity.
Qed.

Lemma SetMultiLevel_then_Get_empty_method_witness :
  exists err w',
    SetMultiLevel demo 0 1000 2000 "res" "k1" (payload 7) [] "etag" 60000 "res"
      (fresh_world 100 "") = Some (err, w')
    /\ fst (Get demo 1500 "k1" w') = Some (Byte.x04 :: payload 7).
Proof.
  apply (SetMultiLevel_then_Get_empty_method demo 0 1000 2000 1500 "res" "k1"
           (payload 7) [] "etag" 60000 "res" (fresh_world 100 "")
           (fresh_world 100 "") (Byte.x04 :: payload 7));
    try reflexivity; try lia; discriminate.
Defined.

(** X13.  With the method [lz4] configured and a codec whose reader gives
    back the payload from what [ReadFrom] has put in the buffer, the get of
    the varied key that follows a multi-level write, without an entry limit
    and before the TTL has run out, returns the payload. *)
Theorem SetMultiLevel_then_Get_roundtrip
    (E : Deps) (fuel : nat) (now now2 t : Z) (baseKey variedKey : string)
    (value : bytes) (variedHeaders : Header) (etag : string) (duration : Z)
    (realKey : string) (w w1 : World) (compressed : bytes) :
  compression (provider w) = "lz4"%string ->
  lz4_ReadFrom E value = Ok compressed ->
  lz4_ReadAll E compressed = Ok value ->
  uint64_of_int (size (provider w)) = 0 ->
  variedKey <> (MappingKeyPrefix E ++ baseKey)%string ->
  recoverEnoughSpaceIfNeeded E fuel (Z.of_nat (length compressed)) w = Some w1 ->
  writable E (joinedFP E variedKey w) = true ->
  duration > 0 ->
  now <= t <= now + duration ->
  exists err w',
    SetMultiLevel E fuel now now2 baseKey variedKey value variedHeaders etag
      duration realKey w = Some (err, w')
    /\ fst (Get E t variedKey w') = Some value.
Proof.
  intros Hmethod Hframe Hread Hsize Hkeys Hreclaim Hwritable Hduration Ht.
  destruct (SetMultiLevel_then_Get_decodes E fuel now now2 t baseKey variedKey
              value variedHeaders etag duration realKey w compressed w w1)
    as (err & w' & Hrun & Hget); try assumption.
  - apply encode_with_lz4; [now left | exact Hframe].
  - exists err, w'. split; [exact Hrun|]. rewrite Hget. unfold decode.
    rewrite Hmethod. cbn. now rewrite Hread.
Qed.

Lemma SetMultiLevel_then_Get_roundtrip_witness :
  exists err w',
    SetMultiLevel demo 0 1000 2000 "res" "k1" (payload 7) [] "etag" 60000 "res"
      (fresh_world 100 "lz4") = Some (err, w')
    /\ fst (Get demo 1500 "k1" w') = Some (payload 7).
Proof.
  apply (SetMultiLevel_then_Get_roundtrip demo 0 1000 2000 1500 "res" "k1"
           (payload 7) [] "etag" 60000 "res" (fresh_world 100 "lz4")
           (fresh_world 100 "lz4") (Byte.x04 :: payload 7));
    try reflexivity; try lia; discriminate.
Defined.

(** X14.  With a method other than [zstd], [lz4] and the empty string the
    multi-level write stores the payload as it is, and the get cannot read it
    back: without an entry limit, the get of the varied key that follows
    returns nil. *)
Theorem SetMultiLevel_then_Get_unsupported_method
    (E : Deps) (fuel : nat) (now now2 t : Z) (baseKey variedKey : string)
    (value : bytes) (variedHeaders : Header) (etag : string) (duration : Z)
    (realKey : string) (w w1 : World) :
  supported (compression (provider w)) = false ->
  uint64_of_int (size (provider w)) = 0 ->
  variedKey <> (MappingKeyPrefix E ++ baseKey)%string ->
  recoverEnoughSpaceIfNeeded E fuel (Z.of_nat (length value))
    (log (Warnf_UnknownCompression (compression (provider w))) w) = Some w1 ->
  writable E (joinedFP E variedKey w) = true ->
  duration > 0 ->
  now <= t <= now + duration ->
  exists err w',
    SetMultiLevel E fuel now now2 baseKey variedKey value variedHeaders etag
      duration realKey w = Some (err, w')
    /\ disk w' !! joinedFP E variedKey w = Some (File value)
    /\ fst (Get E t variedKey w') = None.
Proof.
  intros Hmethod Hsize Hkeys Hreclaim Hwritable Hduration Ht.
  pose proof (encode_unsupported E variedKey value w Hmethod) as Hencode.
  destruct (SetMultiLevel_stored E fuel now now2 baseKey variedKey value
              variedHeaders etag duration realKey w value _ w1
              Hsize Hkeys Hencode Hreclaim Hwritable)
    as (err & w' & Hrun & Hlook & Hfile & Hcfg).
  exists err, w'. split; [exact Hrun|]. split; [exact Hfile|].
  rewrite (Get_of_blob E t variedKey _ value w' Hlook).
  - rewrite (config_compression _ _ Hcfg). unfold decode.
    unfold supported in Hmethod.
    apply orb_false_iff in Hmethod as [Hrest Hnone].
    apply orb_false_iff in Hrest as [Hzstd Hlz4].
    now rewrite Hzstd, Hlz4, Hnone.
  - unfold isExpired. cbn [TTL expiresAt].
    apply orb_false_iff. split; [apply Z.leb_gt | apply Z.ltb_ge]; lia.
  - cbn [Value]. now rewrite string_of_bytes_of_string.
Qed.

Lemma SetMultiLevel_then_Get_unsupported_method_witness :
  exists err w',
    SetMultiLevel demo 0 1000 2000 "res" "k1" (payload 7) [] "etag" 60000 "res"
      (fresh_world 100 "gzip") = Some (err, w')
    /\ disk w' !! joinedFP demo "k1" (fresh_world 100 "gzip")
       = Some (File (payload 7))
    /\ fst (Get demo 1500 "k1" w') = None.
Proof.
  apply (SetMultiLevel_then_Get_unsupported_method demo 0 1000 2000 1500 "res"
           "k1" (payload 7) [] "etag" 60000 "res" (fresh_world 100 "gzip")
           (log (Warnf_UnknownCompression "gzip") (fresh_world 100 "gzip")));
    try reflexivity; try lia; discriminate.
Defined.

(** ** Uuid *)

Lemma all_digits_formatBits (fuel : nat) :
  forall (n : Z) (acc : string),
    0 <= n -> all_digits acc = true -> all_digits (formatBits fuel n acc) = true.
Proof.
  induction fuel as [|fuel IH]; intros n acc Hn Hacc; [exact Hacc|].
  cbn [formatBits]. destruct (Z.ltb_spec n 10).
  - cbn [all_digits]. rewrite Hacc.
    now destruct (digit_char_spec n ltac:(lia)) as [-> _].
  - apply IH; [apply Z.div_pos; lia|].
    cbn [all_digits]. rewrite Hacc.
    assert (Hm : 0 <= n mod 10 < 10) by (apply Z.mod_pos_bound; lia).
    now destruct (digit_char_spec (n mod 10) Hm) as [-> _].
Qed.

Lemma all_digits_no_dash (p d : string) :
  all_digits (p ++ String "-" d) = false.
Proof.
  induction p as [|c p IH]; [reflexivity|].
  change (is_digit c && all_digits (p ++ String "-" d) = false).
  rewrite IH. apply andb_false_r.
Qed.

Lemma dash_split_unique (p1 p2 d1 d2 : string) :
  all_digits d1 = true -> all_digits d2 = true ->
  (p1 ++ String "-" d1)%string = (p2 ++ String "-" d2)%string ->
  p1 = p2 /\ d1 = d2.
Proof.
  intros Hd1 Hd2. revert p2.
  induction p1 as [|c p1 IH]; intros [|c2 p2] Heq; simpl in Heq.
  - injection Heq as ->. auto.
  - injection Heq as _ Heq. rewrite Heq, all_digits_no_dash in Hd1. discriminate.
  - injection Heq as _ Heq. rewrite <- Heq, all_digits_no_dash in Hd2.
    discriminate.
  - injection Heq as -> Heq. destruct (IH _ Heq) as [-> ->]. auto.
Qed.

Lemma fmt_d_injective (n m : Z) :
  0 <= n < 2 ^ 63 -> 0 <= m < 2 ^ 63 -> fmt_d n = fmt_d m -> n = m.
Proof.
  intros Hn Hm. unfold fmt_d.
  destruct (Z.ltb_spec n 0); [lia|]. destruct (Z.ltb_spec m 0); [lia|].
  intros Heq.
  assert (Hparse : forall k, 0 <= k < 2 ^ 63 ->
                             leadingInt_from 0 (formatBits 20 k "")
                             = Some (k, EmptyString)).
  { intros k Hk. rewrite leadingInt_formatBits; [reflexivity | lia |].
    change (10 ^ Z.of_nat 20) with 100000000000000000000.
    change (2 ^ 63) with 9223372036854775808 in Hk. lia. }
  pose proof (Hparse n Hn) as Hpn. rewrite Heq, (Hparse m Hm) in Hpn.
  congruence.
Qed.

(** X15.  Two providers whose entry limits are not negative have the same
    identifier only if they have the same root path and the same limit. *)
Theorem Uuid_injective (p1 p2 : Simplefs) :
  0 <= size p1 < 2 ^ 63 ->
  0 <= size p2 < 2 ^ 63 ->
  Uuid p1 = Uuid p2 ->
  path p1 = path p2 /\ size p1 = size p2.
Proof.
  intros H1 H2. unfold Uuid.
  intros Heq. change ("-" ++ fmt_d (size p1))%string
    with (String "-" (fmt_d (size p1))) in Heq.
  change ("-" ++ fmt_d (size p2))%string
    with (String "-" (fmt_d (size p2))) in Heq.
  assert (Hd : forall n, 0 <= n -> all_digits (fmt_d n) = true).
  { intros n Hn. unfold fmt_d. destruct (Z.ltb_spec n 0); [lia|].
    now apply all_digits_formatBits. }
  destruct (dash_split_unique (path p1) (path p2) (fmt_d (size p1))
              (fmt_d (size p2))) as [Hpath Hsize];
    [apply Hd; lia | apply Hd; lia | exact Heq |].
  split; [exact Hpath|]. now apply fmt_d_injective.
Qed.

Lemma Uuid_injective_witness :
  path (mkSimplefs [] 0 20 "/cache" 0 (-1) "")
  = path (mkSimplefs [] 5 20 "/cache" 9 100 "lz4")
  /\ size (mkSimplefs [] 0 20 "/cache" 0 (-1) "")
     = size (mkSimplefs [] 5 20 "/cache" 9 100 "lz4").
Proof.
  apply (Uuid_injective (mkSimplefs [] 0 20 "/cache" 0 (-1) "")
           (mkSimplefs [] 5 20 "/cache" 9 100 "lz4"));
    [vm_compute; split; [discriminate | reflexivity] ..| reflexivity].
Defined.

(** A negative limit, which a limit written as a string may be, breaks this:
    the two providers below share the identifier [a--1]. *)
Example Uuid_collision :
  Uuid (mkSimplefs [] 0 1 "a-" 0 (-1) "")
  = Uuid (mkSimplefs [] 0 (-1) "a" 0 (-1) "").
Proof. reflexivity. Qed.

(** ** Construction *)

Example Atoi_examples :
  Atoi "123" = (123, None) /\ Atoi "-5" = (-5, None) /\ Atoi "+7" = (7, None)
  /\ Atoi "" = (0, Some ErrSyntax) /\ Atoi "12a" = (0, Some ErrSyntax)
  /\ Atoi "-" = (0, Some ErrSyntax)
  /\ Atoi "99999999999999999999" = (9223372036854775807, Some ErrRange)
  /\ Atoi "-9223372036854775808" = (-9223372036854775808, None).
Proof. repeat split. Qed.

Lemma atoi_digits_formatBits (fuel : nat) :
  forall (n : Z) (acc : string),
    0 <= n -> n < 10 ^ Z.of_nat fuel ->
    atoi_digits 0 (formatBits fuel n acc) = atoi_digits n acc.
Proof.
  induction fuel as [|fuel IH]; intros n acc Hn Hlt.
  - simpl in *. now replace n with 0 by lia.
  - cbn [formatBits]. destruct (Z.ltb_spec n 10) as [Hsmall|Hbig].
    + destruct (digit_char_spec n ltac:(lia)) as [Hdig Hval].
      cbn [atoi_digits]. now rewrite Hdig, Hval.
    + assert (Hm : 0 <= n mod 10 < 10) by (apply Z.mod_pos_bound; lia).
      destruct (digit_char_spec (n mod 10) Hm) as [Hdig Hval].
      rewrite IH.
      * cbn [atoi_digits]. rewrite Hdig, Hval.
        now replace (n / 10 * 10 + n mod 10) with n
          by (pose proof (Z.div_mod n 10); lia).
      * apply Z.div_pos; lia.
      * rewrite Nat2Z.inj_succ, Z.pow_succ_r in Hlt by lia.
        apply Z.div_lt_upper_bound; lia.
Qed.

Lemma length_formatBits (k : nat) :
  forall (fuel : nat) (n : Z) (acc : string),
    0 <= n < 10 ^ Z.of_nat (S k) ->
    (String.length (formatBits fuel n acc) <= S k + String.length acc)%nat.
Proof.
  induction k as [|k IH]; intros fuel n acc Hn.
  - destruct fuel as [|fuel]; cbn [formatBits]; [lia|].
    change (10 ^ Z.of_nat 1) with 10 in Hn.
    destruct (Z.ltb_spec n 10); [simpl; lia | lia].
  - destruct fuel as [|fuel]; cbn [formatBits]; [lia|].
    destruct (Z.ltb_spec n 10); [simpl; lia|].
    etransitivity; [apply IH|simpl; lia].
    split; [apply Z.div_pos; lia|].
    destruct Hn as [_ Hlt].
    rewrite Nat2Z.inj_succ, Z.pow_succ_r in Hlt by lia.
    apply Z.div_lt_upper_bound; lia.
Qed.

(** [strconv.Atoi] reads back what the verb [%d] prints. *)
Lemma Atoi_fmt_d (n : Z) :
  - 100000000000000000 < n < 1000000000000000000 ->
  Atoi (fmt_d n) = (n, None).
Proof.
  intros Hn. unfold fmt_d. destruct (Z.ltb_spec n 0) as [Hneg|Hpos].
  - pose proof (length_formatBits 16 20 (- n) "" ltac:(
        change (10 ^ Z.of_nat 17) with 100000000000000000; lia)) as Hlen.
    destruct (formatBits_head 19 (- n) "") as (c & rest & Heq & Hdig & _);
      [lia|].
    unfold Atoi. cbn [String.length].
    change (String.length "") with 0%nat in Hlen.
    destruct (Nat.ltb_spec (S (String.length (formatBits 20 (- n) ""))) 19);
      [|lia].
    change (Ascii.eqb "-" "-") with true.
    change (Ascii.eqb "-" "+") with false.
    cbn [orb andb Nat.ltb Nat.leb].
    rewrite atoi_digits_formatBits;
      [|lia|change (10 ^ Z.of_nat 20) with 100000000000000000000; lia].
    cbn [atoi_digits]. rewrite Heq. cbn [String.length Nat.ltb Nat.leb].
    f_equal. lia.
  - pose proof (length_formatBits 17 20 n "" ltac:(
        change (10 ^ Z.of_nat 18) with 1000000000000000000; lia)) as Hlen.
    destruct (formatBits_head 19 n "") as (c & rest & Heq & Hdig & _); [lia|].
    pose proof (atoi_digits_formatBits 20 n "" ltac:(lia) ltac:(
        change (10 ^ Z.of_nat 20) with 100000000000000000000; lia)) as Hparse.
    unfold Atoi. change (String.length "") with 0%nat in Hlen.
    destruct (Nat.ltb_spec (String.length (formatBits 20 n "")) 19); [|lia].
    rewrite Heq in *. cbn [String.length Nat.ltb Nat.leb andb].
    assert (Hminus : Ascii.eqb c "-" = false).
    { destruct (Ascii.eqb_spec c "-") as [->|]; [discriminate | reflexivity]. }
    assert (Hplus : Ascii.eqb c "+" = false).
    { destruct (Ascii.eqb_spec c "+") as [->|]; [discriminate | reflexivity]. }
    rewrite Hminus, Hplus. cbn [orb andb]. rewrite Hparse. reflexivity.
Qed.

Section FactoryProperties.
Variable os_Getwd : result string.
Variable os_MkdirAll : string -> option error.
Variable humanize_ParseBytes : string -> Z * option error.
Variable unicode_ToLower : string -> string.

Abbreviation build := (Factory os_Getwd os_MkdirAll humanize_ParseBytes unicode_ToLower).
Abbreviation read_settings := (settings humanize_ParseBytes unicode_ToLower).

(** What a successful construction returns. *)
Lemma Factory_success (cfg : CacheProvider) (stale0 : Z) (p : Simplefs)
    (events : list FactoryEvent) :
  build cfg stale0 = (Ok p, events) ->
  cache p = [] /\ actualSize p = 0 /\ stale p = stale0
  /\ size p = fst (fst (fst (read_settings cfg)))
  /\ directorySize p = snd (fst (read_settings cfg))
  /\ compression p = snd (read_settings cfg)
  /\ os_MkdirAll (path p) = None
  /\ (if String.eqb (snd (fst (fst (read_settings cfg)))) ""
      then os_Getwd = Ok (path p)
      else path p = snd (fst (fst (read_settings cfg)))).
Proof.
  unfold Factory.
  destruct (read_settings cfg) as [[[size1 storagePath1] directorySize1] compression1].
  cbn [fst snd].
  destruct (String.eqb storagePath1 "").
  - destruct os_Getwd as [wd|err]; [|discriminate].
    destruct (os_MkdirAll wd) eqn:Hmk; [discriminate|].
    intros H. injection H as <- _. cbn. auto 10.
  - destruct (os_MkdirAll storagePath1) eqn:Hmk; [discriminate|].
    intros H. injection H as <- _. cbn. auto 10.
Qed.

Lemma is_upper_lower_byte (c : ascii) :
  (Z.of_N (N_of_ascii c) <? 128) = true -> is_upper (lower_byte c) = false.
Proof.
  destruct c as [[] [] [] [] [] [] [] []]; intros H;
    try discriminate H; reflexivity.
Qed.

Lemma has_upper_lowered (s : string) :
  isASCII s = true -> has_upper (map_bytes lower_byte s) = false.
Proof.
  induction s as [|c s IH]; [reflexivity|].
  cbn [isASCII map_bytes has_upper]. intros H.
  apply andb_true_iff in H as [Hc Hs].
  now rewrite (is_upper_lower_byte c Hc), (IH Hs).
Qed.

Lemma map_lower_without_upper (s : string) :
  has_upper s = false -> map_bytes lower_byte s = s.
Proof.
  induction s as [|c s IH]; [reflexivity|].
  cbn [map_bytes has_upper]. intros H.
  apply orb_false_iff in H as [Hc Hs].
  rewrite (IH Hs). unfold lower_byte. now rewrite Hc.
Qed.

(** X16.  An entry limit written as a decimal number in a string is taken as
    it is, sign included: the provider built has that limit. *)
Theorem Factory_size_from_decimal_string
    (cfg : CacheProvider) (sfsconfig : gmap string any) (stale0 n : Z)
    (p : Simplefs) (events : list FactoryEvent) :
  provider_configuration cfg = ConfigurationMap sfsconfig ->
  sfsconfig !! "size"%string = Some (AnyString (fmt_d n)) ->
  - 100000000000000000 < n < 1000000000000000000 ->
  build cfg stale0 = (Ok p, events) ->
  size p = n.
Proof.
  intros Hcfg Hsize Hn Hbuild.
  destruct (Factory_success cfg stale0 p events Hbuild)
    as (_ & _ & _ & -> & _).
  unfold settings. rewrite Hcfg. cbn [fst].
  unfold configured_size, configured. rewrite Hsize.
  now rewrite Atoi_fmt_d.
Qed.

(** X17.  A compression method written in ASCII is taken in lower case: the
    method of the provider built has no upper case letter, and is the
    configured string when that has none. *)
Theorem Factory_compression_lowercase
    (cfg : CacheProvider) (sfsconfig : gmap string any) (stale0 : Z)
    (method : string) (p : Simplefs) (events : list FactoryEvent) :
  provider_configuration cfg = ConfigurationMap sfsconfig ->
  sfsconfig !! "compression"%string = Some (AnyString method) ->
  isASCII method = true ->
  build cfg stale0 = (Ok p, events) ->
  compression p = map_bytes lower_byte method
  /\ has_upper (compression p) = false
  /\ (has_upper method = false -> compression p = method).
Proof.
  intros Hcfg Hmethod Hascii Hbuild.
  destruct (Factory_success cfg stale0 p events Hbuild)
    as (_ & _ & _ & _ & _ & -> & _).
  unfold settings. rewrite Hcfg. cbn [snd].
  unfold configured_compression, configured. rewrite Hmethod.
  unfold strings_ToLower. rewrite Hascii.
  split; [reflexivity|]. split.
  - now apply has_upper_lowered.
  - apply map_lower_without_upper.
Qed.

(** X18.  The first multi-level write on a provider fresh from the
    construction: the keys of its index are pairwise distinct, and with a
    budget configured the write returns exactly when the compressed payload is
    no larger than the budget; with no budget it returns. *)
Theorem first_write_after_Factory
    (E : Deps) (cfg : CacheProvider) (stale0 : Z) (p : Simplefs)
    (events : list FactoryEvent) (d : gmap string node)
    (now now2 : Z) (baseKey variedKey : string) (value : bytes)
    (variedHeaders : Header) (etag : string) (duration : Z) (realKey : string)
    (compressed : bytes) (w0 : World) :
  build cfg stale0 = (Ok p, events) ->
  encode E variedKey value (mkWorld p d []) = (Ok compressed, w0) ->
  Z.of_nat (length compressed) < 2 ^ 63 ->
  keys_unique (mkWorld p d [])
  /\ (directorySize p <= -1
      \/ Z.of_nat (length compressed) <= directorySize p ->
      forall fuel, exists err w',
        SetMultiLevel E fuel now now2 baseKey variedKey value variedHeaders
          etag duration realKey (mkWorld p d []) = Some (err, w'))
  /\ (directorySize p > -1
      /\ Z.of_nat (length compressed) > directorySize p ->
      forall fuel,
        SetMultiLevel E fuel now now2 baseKey variedKey value variedHeaders
          etag duration realKey (mkWorld p d []) = None).
Proof.
  intros Hbuild Hencode Hlen.
  destruct (Factory_success cfg stale0 p events Hbuild)
    as (Hcache & Hcounter & _).
  set (w := mkWorld p d []) in *.
  destruct (encode_provider E variedKey value w) as (Hp & _).
  rewrite Hencode in Hp. cbn [snd] in Hp.
  assert (Hwrap : wrap64 (actualSize (provider w0) + Z.of_nat (length compressed))
                  = Z.of_nat (length compressed)).
  { rewrite Hp. subst w. cbn [provider]. rewrite Hcounter.
    apply wrap64_small. lia. }
  split; [|split].
  - unfold keys_unique. subst w. cbn [provider]. rewrite Hcache. constructor.
  - intros Hfits fuel. unfold SetMultiLevel. rewrite Hencode.
    rewrite recoverEnoughSpaceIfNeeded_not_needed.
    + destruct (os_WriteFile E _ compressed (disk w0)); eauto.
      destruct (update_mapping E now now2 baseKey variedKey variedHeaders etag
                  duration realKey _) as [err w']. eauto.
    + rewrite Hwrap, Hp. subst w. cbn [provider]. exact Hfits.
  - intros [Hbudget Hover] fuel. unfold SetMultiLevel. rewrite Hencode.
    rewrite recoverEnoughSpaceIfNeeded_stuck; [reflexivity | | | ].
    + rewrite Hp. subst w. exact Hbudget.
    + rewrite Hwrap, Hp. subst w. exact Hover.
    + apply reclaim_step_miss. rewrite Hp. subst w. cbn [provider].
      now rewrite Hcache.
Qed.
End FactoryProperties.

Lemma Factory_size_from_decimal_string_witness :
  size (mkSimplefs [] 30 (-3) "/srv" 0 (-1) "") = -3.
Proof.
  apply (Factory_size_from_decimal_string demo_Getwd demo_MkdirAll
           demo_ParseBytes (fun s => s)
           (mkCacheProvider ""
              (ConfigurationMap {[ "size"%string := AnyString "-3" ]}))
           {[ "size"%string := AnyString "-3" ]} 30 (-3)
           (mkSimplefs [] 30 (-3) "/srv" 0 (-1) "")
           [Infof_DirectoryReady "/srv"; Info_NoPath]);
    try reflexivity.
  vm_compute. split; reflexivity.
Defined.

Lemma Factory_compression_lowercase_witness :
  compression (mkSimplefs [] 30 0 "/cache" 0 (-1) "lz4")
  = map_bytes lower_byte "LZ4"
  /\ has_upper (compression (mkSimplefs [] 30 0 "/cache" 0 (-1) "lz4")) = false
  /\ (has_upper "LZ4" = false ->
      compression (mkSimplefs [] 30 0 "/cache" 0 (-1) "lz4") = "LZ4"%string).
Proof.
  apply (Factory_compression_lowercase demo_Getwd demo_MkdirAll
           demo_ParseBytes (fun s => s)
           (mkCacheProvider "/cache"
              (ConfigurationMap {[ "compression"%string := AnyString "LZ4" ]}))
           {[ "compression"%string := AnyString "LZ4" ]} 30 "LZ4"
           (mkSimplefs [] 30 0 "/cache" 0 (-1) "lz4")
           [Infof_DirectoryReady "/cache"]);
    reflexivity.
Defined.

Lemma first_write_after_Factory_witness :
  keys_unique (mkWorld (mkSimplefs [] 30 0 "/cache" 0 (-1) "lz4") ∅ [])
  /\ (-1 <= -1 \/ Z.of_nat (length (Byte.x04 :: payload 7)) <= -1 ->
      forall fuel, exists err w',
        SetMultiLevel demo fuel 1000 2000 "res" "k1" (payload 7) [] "etag"
          60000 "res" (mkWorld (mkSimplefs [] 30 0 "/cache" 0 (-1) "lz4") ∅ [])
        = Some (err, w'))
  /\ (-1 > -1 /\ Z.of_nat (length (Byte.x04 :: payload 7)) > -1 ->
      forall fuel,
        SetMultiLevel demo fuel 1000 2000 "res" "k1" (payload 7) [] "etag"
          60000 "res" (mkWorld (mkSimplefs [] 30 0 "/cache" 0 (-1) "lz4") ∅ [])
        = None).
Proof.
  apply (first_write_after_Factory demo_Getwd demo_MkdirAll demo_ParseBytes
           (fun s => s) demo
           (mkCacheProvider "/cache"
              (ConfigurationMap {[ "compression"%string := AnyString "LZ4" ]}))
           30 (mkSimplefs [] 30 0 "/cache" 0 (-1) "lz4")
           [Infof_DirectoryReady "/cache"] ∅ 1000 2000 "res" "k1" (payload 7)
           [] "etag" 60000 "res" (Byte.x04 :: payload 7)
           (mkWorld (mkSimplefs [] 30 0 "/cache" 0 (-1) "lz4") ∅ []));
    reflexivity.
Defined.

(** ** The entry limit counts the mapping records *)

Lemma config_stale (w w' : World) :
  config w' = config w -> stale (provider w') = stale (provider w).
Proof. unfold config. intros H. now injection H. Qed.

Lemma make_room_below_capacity (E : Deps) (w : World) :
  uint64_of_int (size (provider w)) = 1 ->
  cache (provider w) = [] ->
  make_room E w = w.
Proof. intros Hsize Hempty. unfold make_room. now rewrite Hsize, Hempty. Qed.

(** X19.  With an entry limit of one, the multi-level write of a variant to an
    empty index evicts the variant while writing its mapping record back: the
    call returns nil, the index holds the mapping record only, the blob just
    written is deleted and a get of the varied key is a miss. *)
Theorem SetMultiLevel_with_limit_one
    (E : Deps) (fuel : nat) (now now2 t : Z) (baseKey variedKey : string)
    (value : bytes) (variedHeaders : Header) (etag : string) (duration : Z)
    (realKey : string) (w w0 : World) (compressed val : bytes) :
  uint64_of_int (size (provider w)) = 1 ->
  cache (provider w) = [] ->
  encode E variedKey value w = (Ok compressed, w0) ->
  directorySize (provider w) <= -1
  \/ wrap64 (actualSize (provider w) + Z.of_nat (length compressed))
     <= directorySize (provider w) ->
  writable E (joinedFP E variedKey w) = true ->
  Contains (joinedFP E variedKey w) (MappingKeyPrefix E) = false ->
  variedKey <> (MappingKeyPrefix E ++ baseKey)%string ->
  MappingUpdater E variedKey [] now (now + duration)
    (now + wrap64 (duration + stale (provider w)))
    variedHeaders etag realKey = Ok val ->
  exists w',
    SetMultiLevel E fuel now now2 baseKey variedKey value variedHeaders etag
      duration realKey w = Some (None, w')
    /\ ListKeys w' = [(MappingKeyPrefix E ++ baseKey)%string]
    /\ disk w' !! joinedFP E variedKey w = None
    /\ fst (Get E t variedKey w') = None.
Proof.
  intros Hsize Hempty Hencode Hfits Hwritable Hplain Hkeys Hmerge.
  destruct (encode_provider E variedKey value w) as (Hp & Hd).
  rewrite Hencode in Hp, Hd. cbn [snd] in Hp, Hd.
  set (fp := joinedFP E variedKey w) in *.
  set (mappingKey := (MappingKeyPrefix E ++ baseKey)%string) in *.
  set (item := mkItem variedKey (bytes_of_string fp) duration (now + duration)).
  assert (Hfp0 : joinedFP E variedKey w0 = fp).
  { unfold fp, joinedFP. now rewrite Hp. }
  (* the registration of the variant *)
  set (w1 := set_disk (<[fp := File compressed]> (disk w0)) w0).
  assert (Hset1 : cache_Set E now variedKey (bytes_of_string fp) duration w1
                  = OnInsertion E item (set_cache [item] w1)).
  { assert (Hc1 : cache (provider w1) = [])
      by (subst w1; cbn [provider set_disk]; now rewrite Hp).
    assert (Hs1 : uint64_of_int (size (provider w1)) = 1)
      by (subst w1; cbn [provider set_disk]; now rewrite Hp).
    unfold cache_Set. rewrite Hc1. cbn [lookup_item find].
    rewrite (make_room_below_capacity E w1 Hs1 Hc1), Hc1. reflexivity. }
  destruct (OnInsertion_frame E item (set_cache [item] w1))
    as (Hcfg2 & Hdisk2 & Hcache2).
  set (w2 := OnInsertion E item (set_cache [item] w1)) in *.
  cbn [set_cache cache provider disk] in Hcache2, Hdisk2.
  assert (Hmiss : lookup_item mappingKey (cache (provider w2)) = None).
  { rewrite Hcache2. cbn [lookup_item find Key item].
    destruct (String.eqb_spec variedKey mappingKey); [contradiction|reflexivity]. }
  (* the reading of the mapping record *)
  set (w3 := log (Warnf_MappingMiss mappingKey) w2).
  assert (Hload : load_mapping now mappingKey w2 = ([], w3)).
  { unfold load_mapping, cache_Get. now rewrite Hmiss. }
  assert (Hstale : stale (provider w3) = stale (provider w)).
  { subst w3. cbn [provider log]. rewrite (config_stale _ _ Hcfg2).
    subst w1. simpl. now rewrite Hp. }
  (* the write-back: the variant is the least recently used entry *)
  set (w4 := log (Debugf_StoreMapping variedKey) w3).
  set (ttl := - (Nanosecond now2 * 2 * 1000000000)).
  set (record := mkItem mappingKey val ttl (now2 + ttl)).
  assert (Hsize4 : uint64_of_int (size (provider w4)) = 1).
  { subst w4 w3. cbn [provider log].
    rewrite (config_size _ _ Hcfg2). subst w1. simpl.
    now rewrite Hp. }
  assert (Hroom : make_room E w4
                  = evict E EvictionReasonCapacityReached item w4).
  { unfold make_room. rewrite Hsize4. subst w4 w3. cbn [provider log].
    rewrite Hcache2. reflexivity. }
  assert (Hfile4 : disk (set_cache (remove_item (Key item) (cache (provider w4))) w4)
                   !! string_of_bytes (Value item) = Some (File compressed)).
  { subst w4 w3. cbn [disk set_cache log Value item].
    rewrite string_of_bytes_of_string, Hdisk2. subst w1. cbn [disk set_disk].
    apply lookup_insert_eq. }
  assert (Hplain4 : Contains (string_of_bytes (Value item)) (MappingKeyPrefix E)
                    = false).
  { cbn [Value item]. now rewrite string_of_bytes_of_string. }
  assert (Hset2 : cache_Set E now2 mappingKey val ttl w4
                  = set_cache [record] (evict E EvictionReasonCapacityReached item w4)).
  { unfold cache_Set.
    assert (Hmiss4 : lookup_item mappingKey (cache (provider w4)) = None)
      by exact Hmiss.
    rewrite Hmiss4, Hroom. fold record.
    rewrite OnInsertion_inert by apply Contains_app.
    rewrite evict_cache. subst w4 w3. cbn [provider log].
    rewrite Hcache2. cbn [remove_item List.filter Key item].
    now rewrite String.eqb_refl. }
  exists (set_cache [record] (evict E EvictionReasonCapacityReached item w4)).
  split; [|split; [|split]].
  - unfold SetMultiLevel. rewrite Hencode.
    rewrite recoverEnoughSpaceIfNeeded_not_needed by (now rewrite Hp).
    rewrite Hfp0. unfold os_WriteFile. rewrite Hwritable.
    fold w1. rewrite Hset1. fold w2.
    unfold update_mapping. fold mappingKey. rewrite Hload.
    rewrite Hstale, Hmerge, negativeNow_value. fold w4 ttl.
    now rewrite Hset2.
  - reflexivity.
  - cbn [disk set_cache]. unfold evict.
    rewrite (OnEviction_file E _ item compressed _ Hplain4 Hfile4).
    cbn [disk set_disk Value item]. rewrite string_of_bytes_of_string.
    apply lookup_delete_eq.
  - unfold Get, cache_Get. cbn [provider set_cache cache lookup_item find Key record].
    destruct (String.eqb_spec mappingKey variedKey); [congruence | reflexivity].
Qed.

Lemma SetMultiLevel_with_limit_one_witness :
  exists w',
    SetMultiLevel demo 0 1000 2000 "res" "k1" (payload 7) [] "etag" 60000 "res"
      (mkWorld (mkSimplefs [] 0 1 "/cache" 0 (-1) "lz4") ∅ []) = Some (None, w')
    /\ ListKeys w' = [(MappingKeyPrefix demo ++ "res")%string]
    /\ disk w' !! joinedFP demo "k1"
                    (mkWorld (mkSimplefs [] 0 1 "/cache" 0 (-1) "lz4") ∅ [])
       = None
    /\ fst (Get demo 1500 "k1" w') = None.
Proof.
  apply (SetMultiLevel_with_limit_one demo 0 1000 2000 1500 "res" "k1"
           (payload 7) [] "etag" 60000 "res"
           (mkWorld (mkSimplefs [] 0 1 "/cache" 0 (-1) "lz4") ∅ [])
           (mkWorld (mkSimplefs [] 0 1 "/cache" 0 (-1) "lz4") ∅ [])
           (Byte.x04 :: payload 7) (bytes_of_string "k1;"));
    try reflexivity; try discriminate.
  left. vm_compute. discriminate.
Defined.
